(** * Instagram AI chat server: webhook pipeline, signature check and
      conversation store

    A shallow embedding of [src/index.js] and of its sibling variant
    [src/unnamed/part_000].  The two files share the helper functions
    ([verifyWebhookSignature], [sendMessageToOpenAI],
    [addMessageToConversation]) and the GET routes; they differ in the
    POST /webhook handler, which is embedded once per file in the modules
    [Index] and [Part000].

    Conventions.
    - A JS string is a [string]; one character stands for one code unit.
      The strings that reach a Buffer are header values, which Node
      decodes from the bytes of the request as latin1: their code units
      are below 256, which is what a character holds.  A Buffer is the
      list of its bytes.
    - [undefined]/[null] is [None].
    - Timestamps are [Z] (milliseconds, what [getTime()] returns).
    - The process state (the module-level [let] bindings and everything
      the handlers leave behind) is a [World]; the outside world (clock,
      UUID generator, HMAC, chat-completion endpoint, send API) is an
      [Env] of oracles.  The n-th reading of the clock is [now E n].
    - A JS computation is a function [World -> Completion A * World]:
      it either completes normally or throws, and the mutations made
      before a throw stay. *)

From Stdlib Require Import String Ascii List ZArith Lia Bool.
From Stdlib Require Import Permutation Sorted.
From Stdlib Require DecimalString.
Import ListNotations.
Open Scope string_scope.

(* ================================================================== *)
(** ** JS string primitives used by the program *)
(* ================================================================== *)

(** Truthiness of a value that is a string or undefined. *)
Definition truthy (v : option string) : bool :=
  match v with
  | Some s => negb (s =? "")
  | None => false
  end.

(** [v || d] on a value that is a string or undefined. *)
Definition orElse (v : option string) (d : string) : string :=
  match v with
  | Some s => if s =? "" then d else s
  | None => d
  end.

(** [a === b] on values that are strings or undefined. *)
Definition strictEq (a b : option string) : bool :=
  match a, b with
  | Some x, Some y => x =? y
  | None, None => true
  | _, _ => false
  end.

(** [s.slice(n)] for [0 <= n]: the string without its first [n] units. *)
Fixpoint drop (n : nat) (s : string) : string :=
  match n, s with
  | O, _ => s
  | S _, EmptyString => EmptyString
  | S n', String _ s' => drop n' s'
  end.

(** [s.slice(0, n)]. *)
Fixpoint take (n : nat) (s : string) : string :=
  match n, s with
  | O, _ => EmptyString
  | S _, EmptyString => EmptyString
  | S n', String c s' => String c (take n' s')
  end.

(** [s.slice(-k)]: the start index is [max (length s - k) 0]. *)
Definition sliceLast (k : nat) (s : string) : string :=
  drop (String.length s - k) s.

(** [s.indexOf(pat)], with [None] for -1. *)
Fixpoint indexOf (pat s : string) : option nat :=
  if prefix pat s then Some O
  else match s with
       | EmptyString => None
       | String _ s' => option_map S (indexOf pat s')
       end.

(** [s.includes(pat)]. *)
Definition includes (pat s : string) : bool :=
  match indexOf pat s with Some _ => true | None => false end.

(** GetSubstitution of ECMA-262 for a match without captures: in the
    replacement template, [$$] stands for a dollar sign, [$&] for the
    matched text, [$`] for the text before the match and [$'] for the
    text after it; [$n] and [$<] have nothing to refer to and are copied
    as they are, like every other character. *)
Fixpoint GetSubstitution (matched before after template : string) : string :=
  match template with
  | EmptyString => EmptyString
  | String c rest =>
      if Ascii.eqb c "$" then
        match rest with
        | String d rest' =>
            if Ascii.eqb d "$" then
              String "$" (GetSubstitution matched before after rest')
            else if Ascii.eqb d "&" then
              matched ++ GetSubstitution matched before after rest'
            else if Ascii.eqb d "`" then
              before ++ GetSubstitution matched before after rest'
            else if Ascii.eqb d "'" then
              after ++ GetSubstitution matched before after rest'
            else String c (GetSubstitution matched before after rest)
        | EmptyString => String c EmptyString
        end
      else String c (GetSubstitution matched before after rest)
  end.

(** [s.replace(pat, template)] with a string pattern: only the first
    occurrence is replaced, and the template is expanded. *)
Definition replace (pat template s : string) : string :=
  match indexOf pat s with
  | None => s
  | Some pos =>
      let before := take pos s in
      let after := drop (pos + String.length pat) s in
      before ++ GetSubstitution pat before after template ++ after
  end.

(** [l.slice(0, -1)] on an array. *)
Definition sliceButLast {A} (l : list A) : list A := removelast l.

(* ================================================================== *)
(** ** Data model *)
(* ================================================================== *)

Inductive Sender := user | bot.

Record Message := {
  msg_id : string;
  text : string;
  sender : Sender;
  timestamp : Z
}.

Inductive Status := active.

Record Conversation := {
  conv_id : string;
  userId : option string;   (* a string; undefined if created so *)
  username : string;
  messages : list Message;
  status : Status;
  createdAt : Z;
  lastActivity : Z
}.

(** The fields of [configuration] that the modelled routes read. *)
Record Configuration := {
  verifyToken : string;   (* configuration.instagram.verifyToken *)
  prompt : string;        (* configuration.gpt.prompt *)
  calendlyUrl : string    (* configuration.booking.calendlyUrl *)
}.

Inductive Role := system | roleUser | assistant.

Record ChatMessage := { role : Role; content : string }.

(** The webhook body, [{ object, entry: [{ messaging: [{ sender: { id },
    message: { text } }] }] }], every field optional. *)
Record EventSender := { id : option string }.
Record EventMessage := { msg_text : option string }.
Record MessagingEvent := {
  ev_sender : option EventSender;
  ev_message : option EventMessage
}.
Record Entry := { messaging : option (list MessagingEvent) }.
Record WebhookBody := {
  object : option string;
  entry : option (list Entry)
}.

Record Request := {
  x_hub_signature_256 : option string;   (* req.get("x-hub-signature-256") *)
  body : WebhookBody
}.

Record Response := { code : nat; sent : option string }.

Inductive JsError :=
| TypeError      (* property of undefined, Buffer.from(undefined) *)
| RangeError     (* timingSafeEqual on buffers of different length *)
| RequestError.  (* a rejected axios request *)

Inductive Completion (A : Type) :=
| Normal (a : A)
| Throw (e : JsError).
Arguments Normal {A} a.
Arguments Throw {A} e.

(** A call of the chat-completion endpoint still awaited by a callback of
    [Part000]'s [forEach]. *)
Record Awaiting := { aw_sender : option string; aw_call : nat }.

Record World := {
  conversations : list Conversation;
  configuration : Configuration;
  clockReads : nat;                      (* how many times the clock was read *)
  uuidReads : nat;                       (* how many UUIDs were drawn *)
  llmCalls : list (list ChatMessage);    (* prompts posted, oldest first *)
  timers : list (option string * string); (* setTimeout: recipient, text *)
  awaiting : list Awaiting;              (* callbacks suspended at an await *)
  rejections : list JsError;             (* rejected promises nobody handles *)
  deliveries : list (option string * string) (* posts to the send API *)
}.

Record Env := {
  now : nat -> Z;                                  (* new Date() *)
  randomUUID : nat -> string;                      (* crypto.randomUUID() *)
  hmacSha256Hex : string -> string -> string;      (* key, data, hex digest *)
  WEBHOOK_SECRET : option string;                  (* process.env *)
  JSON_stringify : WebhookBody -> string;
  chatCompletion : nat -> list ChatMessage -> option string;
      (* n-th call: trimmed content of the first choice, or failure *)
  sendApi : option string -> string -> bool        (* did the post succeed *)
}.

Definition M (A : Type) : Type := World -> Completion A * World.

Definition ret {A} (a : A) : M A := fun w => (Normal a, w).

Definition bind {A B} (m : M A) (k : A -> M B) : M B :=
  fun w =>
    match m w with
    | (Normal a, w') => k a w'
    | (Throw e, w') => (Throw e, w')
    end.

Definition throw {A} (e : JsError) : M A := fun w => (Throw e, w).

(** [try { m } catch (error) { h }]. *)
Definition tryCatch {A} (m : M A) (h : JsError -> M A) : M A :=
  fun w =>
    match m w with
    | (Normal a, w') => (Normal a, w')
    | (Throw e, w') => h e w'
    end.

Declare Scope js_scope.
Delimit Scope js_scope with js.
Notation "x <- m ;; k" := (bind m (fun x => k))
  (at level 61, m at next level, right associativity) : js_scope.
Notation "m ;;; k" := (bind m (fun _ => k))
  (at level 61, right associativity) : js_scope.
Open Scope js_scope.

Definition setConversations (cs : list Conversation) : M unit :=
  fun w =>
    (Normal tt,
     {| conversations := cs; configuration := configuration w;
        clockReads := clockReads w; uuidReads := uuidReads w;
        llmCalls := llmCalls w; timers := timers w;
        awaiting := awaiting w; rejections := rejections w;
        deliveries := deliveries w |}).

Definition getConversations : M (list Conversation) :=
  fun w => (Normal (conversations w), w).

Definition getConfiguration : M Configuration :=
  fun w => (Normal (configuration w), w).

(** [new Date()]. *)
Definition newDate (E : Env) : M Z :=
  fun w =>
    (Normal (now E (clockReads w)),
     {| conversations := conversations w; configuration := configuration w;
        clockReads := S (clockReads w); uuidReads := uuidReads w;
        llmCalls := llmCalls w; timers := timers w;
        awaiting := awaiting w; rejections := rejections w;
        deliveries := deliveries w |}).

(** [crypto.randomUUID()]. *)
Definition newUUID (E : Env) : M string :=
  fun w =>
    (Normal (randomUUID E (uuidReads w)),
     {| conversations := conversations w; configuration := configuration w;
        clockReads := clockReads w; uuidReads := S (uuidReads w);
        llmCalls := llmCalls w; timers := timers w;
        awaiting := awaiting w; rejections := rejections w;
        deliveries := deliveries w |}).

Definition pushLlmCall (p : list ChatMessage) : M nat :=
  fun w =>
    (Normal (List.length (llmCalls w)),
     {| conversations := conversations w; configuration := configuration w;
        clockReads := clockReads w; uuidReads := uuidReads w;
        llmCalls := (llmCalls w ++ [p])%list; timers := timers w;
        awaiting := awaiting w; rejections := rejections w;
        deliveries := deliveries w |}).

(** [setTimeout(callback, delay)]: the callback is kept as the recipient
    and the text it closes over; the random delay is not modelled. *)
Definition setTimeout (recipient : option string) (txt : string) : M unit :=
  fun w =>
    (Normal tt,
     {| conversations := conversations w; configuration := configuration w;
        clockReads := clockReads w; uuidReads := uuidReads w;
        llmCalls := llmCalls w; timers := (timers w ++ [(recipient, txt)])%list;
        awaiting := awaiting w; rejections := rejections w;
        deliveries := deliveries w |}).

Definition pushAwaiting (a : Awaiting) : M unit :=
  fun w =>
    (Normal tt,
     {| conversations := conversations w; configuration := configuration w;
        clockReads := clockReads w; uuidReads := uuidReads w;
        llmCalls := llmCalls w; timers := timers w;
        awaiting := (awaiting w ++ [a])%list; rejections := rejections w;
        deliveries := deliveries w |}).

Definition pushRejection (e : JsError) : M unit :=
  fun w =>
    (Normal tt,
     {| conversations := conversations w; configuration := configuration w;
        clockReads := clockReads w; uuidReads := uuidReads w;
        llmCalls := llmCalls w; timers := timers w;
        awaiting := awaiting w; rejections := (rejections w ++ [e])%list;
        deliveries := deliveries w |}).

Definition pushDelivery (recipient : option string) (txt : string) : M unit :=
  fun w =>
    (Normal tt,
     {| conversations := conversations w; configuration := configuration w;
        clockReads := clockReads w; uuidReads := uuidReads w;
        llmCalls := llmCalls w; timers := timers w;
        awaiting := awaiting w; rejections := rejections w;
        deliveries := (deliveries w ++ [(recipient, txt)])%list |}).

(** Lift a computation that touches no state. *)
Definition liftC {A} (c : Completion A) : M A := fun w => (c, w).

(* ================================================================== *)
(** ** Helper functions shared by the two files *)
(* ================================================================== *)

(** [process.env.WEBHOOK_SECRET || "default_secret"]. *)
Definition webhookSecret (E : Env) : string :=
  orElse (WEBHOOK_SECRET E) "default_secret".

(** The UTF-8 bytes of one code unit below 256: one byte below 128, two
    bytes from there on. *)
Definition utf8_unit (c : ascii) : list nat :=
  let n := nat_of_ascii c in
  if Nat.ltb n 128 then [n] else [192 + n / 64; 128 + n mod 64].

(** The UTF-8 encoding of a string. *)
Fixpoint utf8 (s : string) : list nat :=
  match s with
  | EmptyString => []
  | String c s' => (utf8_unit c ++ utf8 s')%list
  end.

(** [Buffer.from(v)]: the UTF-8 bytes of a string; a TypeError when [v]
    is undefined. *)
Definition Buffer_from (v : option string) : Completion (list nat) :=
  match v with
  | Some s => Normal (utf8 s)
  | None => Throw TypeError
  end.

(** Are two buffers the same bytes. *)
Fixpoint sameBytes (a b : list nat) : bool :=
  match a, b with
  | [], [] => true
  | x :: a', y :: b' => Nat.eqb x y && sameBytes a' b'
  | _, _ => false
  end.

(** [crypto.timingSafeEqual(a, b)] throws a RangeError when the byte
    lengths differ. *)
Definition timingSafeEqual (a b : list nat) : Completion bool :=
  if Nat.eqb (List.length a) (List.length b)
  then Normal (sameBytes a b)
  else Throw RangeError.

Definition verifyWebhookSignature (E : Env) (payload : string)
    (signature : option string) : Completion bool :=
  let expectedSignature := hmacSha256Hex E (webhookSecret E) payload in
  match Buffer_from signature with
  | Throw e => Throw e
  | Normal given =>
      match Buffer_from (Some ("sha256=" ++ expectedSignature)) with
      | Throw e => Throw e
      | Normal expected => timingSafeEqual given expected
      end
  end.

(** The role given to a stored message:
    [msg.sender === "user" ? "user" : "assistant"]. *)
Definition chatOf (msg : Message) : ChatMessage :=
  {| role := match sender msg with user => roleUser | bot => assistant end;
     content := text msg |}.

(** The [messages] array built by [sendMessageToOpenAI]. *)
Definition buildMessages (cfg : Configuration) (message : string)
    (conversationHistory : list Message) : list ChatMessage :=
  ({| role := system; content := prompt cfg |}
   :: map chatOf conversationHistory
   ++ [ {| role := roleUser; content := message |} ])%list.

(** [array.find] together with the position of what it found. *)
Fixpoint findWithIndex {A} (p : A -> bool) (l : list A) : option (nat * A) :=
  match l with
  | [] => None
  | x :: l' =>
      if p x then Some (O, x)
      else match findWithIndex p l' with
           | Some (i, y) => Some (S i, y)
           | None => None
           end
  end.

(** The array with its [i]-th cell now holding [x]. *)
Fixpoint setAt {A} (i : nat) (x : A) (l : list A) : list A :=
  match l, i with
  | [], _ => []
  | _ :: l', O => x :: l'
  | y :: l', S i' => y :: setAt i' x l'
  end.

(** [(c) => c.userId === userId]. *)
Definition hasUserId (uid : option string) (c : Conversation) : bool :=
  strictEq (userId c) uid.

(** [conversation.messages.push(m); conversation.lastActivity = t]. *)
Definition pushMessage (m : Message) (t : Z) (c : Conversation) : Conversation :=
  {| conv_id := conv_id c; userId := userId c; username := username c;
     messages := (messages c ++ [m])%list; status := status c;
     createdAt := createdAt c; lastActivity := t |}.

(** [`user_${userId.slice(-6)}`], the right operand of
    [username || ...]: it is evaluated only when [username] is falsy. *)
Definition defaultUsername (uid : option string) : M string :=
  match uid with
  | Some u => ret ("user_" ++ sliceLast 6 u)
  | None => throw TypeError       (* userId.slice on undefined *)
  end.

(** [addMessageToConversation(userId, username, message, sender)].  The
    variable [conversation] of the source is an object that lives in the
    array: it is kept here as its position [i] and its value [c], and
    mutating it writes the array cell back. *)
Definition addMessageToConversation (E : Env) (uid username_ : option string)
    (message : string) (sender_ : Sender) : M Conversation :=
  cs <- getConversations ;;
  found <-
    match findWithIndex (hasUserId uid) cs with
    | Some ic => ret ic
    | None =>
        cid <- newUUID E ;;
        name <-
          match username_ with
          | Some n => if n =? "" then defaultUsername uid else ret n
          | None => defaultUsername uid
          end ;;
        created <- newDate E ;;
        last <- newDate E ;;
        let c := {| conv_id := cid; userId := uid; username := name;
                    messages := []; status := active;
                    createdAt := created; lastActivity := last |} in
        setConversations (cs ++ [c])%list ;;;
        ret (List.length cs, c)
    end ;;
  let '(i, c) := found in
  mid <- newUUID E ;;
  ts <- newDate E ;;
  last <- newDate E ;;
  let c' := pushMessage {| msg_id := mid; text := message;
                           sender := sender_; timestamp := ts |} last c in
  cs' <- getConversations ;;
  setConversations (setAt i c' cs') ;;;
  ret c'.

(** [sendInstagramMessage(recipientId, message)]: logs and rethrows on a
    failed post. *)
Definition sendInstagramMessage (E : Env) (recipientId : option string)
    (message : string) : M unit :=
  pushDelivery recipientId message ;;;
  if sendApi E recipientId message then ret tt else throw RequestError.

(** The callback given to [setTimeout] by the POST handlers. *)
Definition timerCallback (E : Env) (senderId : option string)
    (finalResponse : string) : M unit :=
  tryCatch
    (sendInstagramMessage E senderId finalResponse ;;;
     addMessageToConversation E senderId None finalResponse bot ;;;
     ret tt)
    (fun _ => ret tt).

(* ================================================================== *)
(** ** Routes shared by the two files *)
(* ================================================================== *)

(** The status texts of the two codes given to [res.sendStatus]. *)
Definition statusText (n : nat) : string :=
  if Nat.eqb n 400 then "Bad Request"
  else if Nat.eqb n 403 then "Forbidden"
  else "".

(** [res.sendStatus(n)] sends the status text as the body. *)
Definition sendStatus (n : nat) : Response :=
  {| code := n; sent := Some (statusText n) |}.

(** GET /webhook, on the three query parameters. *)
Definition get_webhook (cfg : Configuration)
    (mode token challenge : option string) : Response :=
  if truthy mode && truthy token then
    if strictEq mode (Some "subscribe")
       && strictEq token (Some (verifyToken cfg))
    then {| code := 200; sent := challenge |}
    else sendStatus 403
  else sendStatus 400.

(** The comparator of GET /api/conversations. *)
Definition byLastActivity (a b : Conversation) : Z :=
  (lastActivity b - lastActivity a)%Z.

(** [Array.prototype.sort] with a comparator: a stable sort, written as
    an insertion sort.  [x] goes before the first [y] with
    [cmp x y <= 0]. *)
Fixpoint insertBy {A} (cmp : A -> A -> Z) (x : A) (l : list A) : list A :=
  match l with
  | [] => [x]
  | y :: l' => if (cmp x y <=? 0)%Z then x :: y :: l'
               else y :: insertBy cmp x l'
  end.

Fixpoint sortBy {A} (cmp : A -> A -> Z) (l : list A) : list A :=
  match l with
  | [] => []
  | x :: l' => insertBy cmp x (sortBy cmp l')
  end.

(** GET /api/conversations: [sort] works in place, so the store itself is
    reordered; the response is the sorted array. *)
Definition get_api_conversations : M (list Conversation) :=
  cs <- getConversations ;;
  let sortedConversations := sortBy byLastActivity cs in
  setConversations sortedConversations ;;;
  ret sortedConversations.

Definition BOOKING_URL : string := "{BOOKING_URL}".

(** [entry.messaging?.[0]]. *)
Definition firstMessaging (e : Entry) : option MessagingEvent :=
  match messaging e with
  | Some (ev :: _) => Some ev
  | _ => None
  end.

(* ================================================================== *)
(** ** src/index.js: POST /webhook *)
(* ================================================================== *)

Module Index.

(** The request is awaited inside the handler; no other task is taken to
    run during the await. *)
Definition sendMessageToOpenAI (E : Env) (message : string)
    (conversationHistory : list Message) : M string :=
  cfg <- getConfiguration ;;
  let messages := buildMessages cfg message conversationHistory in
  n <- pushLlmCall messages ;;
  match chatCompletion E n messages with
  | Some reply => ret reply
  | None => throw RequestError
  end.

Definition sendMessageToLLM := sendMessageToOpenAI.

(** The body of the [for (const entry of ...)] loop. *)
Definition handleEntry (E : Env) (e : Entry) : M unit :=
  match firstMessaging e with
  | None => ret tt
  | Some webhookEvent =>
      match ev_message webhookEvent with
      | None => ret tt
      | Some m =>
          senderId <-
            match ev_sender webhookEvent with
            | Some s => ret (id s)
            | None => throw TypeError   (* webhookEvent.sender.id *)
            end ;;
          let messageText := msg_text m in
          match messageText with
          | None => ret tt
          | Some txt =>
              if truthy messageText then
                conversation <-
                  addMessageToConversation E senderId None txt user ;;
                llmResponse <-
                  sendMessageToLLM E txt
                    (sliceButLast (messages conversation)) ;;
                cfg <- getConfiguration ;;
                let finalResponse :=
                  replace BOOKING_URL (calendlyUrl cfg) llmResponse in
                setTimeout senderId finalResponse
              else ret tt
          end
      end
  end.

Fixpoint forOf (E : Env) (entries : list Entry) : M unit :=
  match entries with
  | [] => ret tt
  | e :: rest => handleEntry E e ;;; forOf E rest
  end.

Definition post_webhook (E : Env) (req : Request) : M Response :=
  tryCatch
    ((if strictEq (object (body req)) (Some "instagram")
      then forOf E (match entry (body req) with Some l => l | None => [] end)
      else ret tt) ;;;
     ret {| code := 200; sent := Some "EVENT_RECEIVED" |})
    (fun _ => ret {| code := 500; sent := Some "Internal server error" |}).

End Index.

(* ================================================================== *)
(** ** src/unnamed/part_000: POST /webhook *)
(* ================================================================== *)

Module Part000.

(** [sendMessageToOpenAI] up to its await: the prompt is built and
    posted.  The result is the number of the call. *)
Definition postChatCompletion (message : string)
    (conversationHistory : list Message) : M nat :=
  cfg <- getConfiguration ;;
  pushLlmCall (buildMessages cfg message conversationHistory).

(** [sendMessageToOpenAI] after its await: the reply, or the apology of
    the [catch] branch when the request failed. *)
Definition settled (result : option string) : string :=
  match result with
  | Some reply => reply
  | None => "Sorry, I'm having trouble responding right now."
  end.

(** The [forEach] callback up to [await sendMessageToLLM(...)]. *)
Definition callbackStart (E : Env) (e : Entry) : M unit :=
  match firstMessaging e with
  | None => ret tt
  | Some webhookEvent =>
      match ev_message webhookEvent with
      | None => ret tt
      | Some m =>
          senderId <-
            match ev_sender webhookEvent with
            | Some s => ret (id s)
            | None => throw TypeError   (* webhookEvent.sender.id *)
            end ;;
          let messageText := msg_text m in
          match messageText with
          | None => ret tt
          | Some txt =>
              if truthy messageText then
                conversation <-
                  addMessageToConversation E senderId None txt user ;;
                n <- postChatCompletion txt
                       (sliceButLast (messages conversation)) ;;
                pushAwaiting {| aw_sender := senderId; aw_call := n |}
              else ret tt
          end
      end
  end.

(** The same callback from the moment its request is settled. *)
Definition callbackResume (a : Awaiting) (result : option string) : M unit :=
  let llmResponse := settled result in
  cfg <- getConfiguration ;;
  let finalResponse :=
    if includes BOOKING_URL llmResponse
    then replace BOOKING_URL (calendlyUrl cfg) llmResponse
    else llmResponse in
  setTimeout (aw_sender a) finalResponse.

(** [body.entry?.forEach(async (entry) => ...)]: every callback runs to
    its first await before the next one starts; an exception inside a
    callback rejects that callback's promise, which nobody handles. *)
Fixpoint forEach (E : Env) (entries : list Entry) : M unit :=
  match entries with
  | [] => ret tt
  | e :: rest =>
      tryCatch (callbackStart E e) (fun err => pushRejection err) ;;;
      forEach E rest
  end.

Definition post_webhook (E : Env) (req : Request) : M Response :=
  tryCatch
    (let xHubSignature := x_hub_signature_256 req in
     let payload := JSON_stringify E (body req) in
     valid <- liftC (verifyWebhookSignature E payload xHubSignature) ;;
     if negb valid
     then ret {| code := 403; sent := Some "Invalid signature" |}
     else
       (if strictEq (object (body req)) (Some "instagram")
        then match entry (body req) with
             | Some l => forEach E l
             | None => ret tt
             end
        else ret tt) ;;;
       ret {| code := 200; sent := Some "EVENT_RECEIVED" |})
    (fun _ => ret {| code := 500; sent := Some "Internal server error" |}).

End Part000.

(* ================================================================== *)
(** ** Vocabulary of the statements *)
(* ================================================================== *)

(** The world after a step that left the store as [cs] and read the
    clock [dc] times and the UUID generator [du] times. *)
Definition storeStep (cs : list Conversation) (dc du : nat) (w : World)
    : World :=
  {| conversations := cs; configuration := configuration w;
     clockReads := dc + clockReads w; uuidReads := du + uuidReads w;
     llmCalls := llmCalls w; timers := timers w;
     awaiting := awaiting w; rejections := rejections w;
     deliveries := deliveries w |}.

(** No two conversations of the store have the same [userId]. *)
Definition uniqueUsers (w : World) : Prop :=
  NoDup (map userId (conversations w)).

(** The new conversation and its first message, as the creating branch
    builds them. *)
Definition created (E : Env) (w : World) (uid : option string)
    (name txt : string) (s : Sender) : Conversation :=
  {| conv_id := randomUUID E (uuidReads w); userId := uid;
     username := name;
     messages := [ {| msg_id := randomUUID E (S (uuidReads w)); text := txt;
                      sender := s; timestamp := now E (2 + clockReads w) |} ];
     status := active;
     createdAt := now E (clockReads w);
     lastActivity := now E (3 + clockReads w) |}.

(** Every conversation of the store has a user id. *)
Definition allIdentified (w : World) : Prop :=
  Forall (fun c => userId c <> None) (conversations w).

(** The conversation of [u], if the store has one. *)
Definition lookupUser (u : string) (cs : list Conversation)
    : option Conversation :=
  find (hasUserId (Some u)) cs.

(** The operations that touch the store: an append, and the listing
    route (whose [sort] reorders it). *)
Inductive StoreOp :=
| OpAppend (u : string) (name : option string) (txt : string) (s : Sender)
| OpList.

Definition runOp (E : Env) (op : StoreOp) : M unit :=
  match op with
  | OpAppend u name txt s =>
      addMessageToConversation E (Some u) name txt s ;;; ret tt
  | OpList => get_api_conversations ;;; ret tt
  end.

Fixpoint runOps (E : Env) (ops : list StoreOp) : M unit :=
  match ops with
  | [] => ret tt
  | op :: rest => runOp E op ;;; runOps E rest
  end.

(** The store of a process that has just started. *)
Definition freshWorld (cfg : Configuration) : World :=
  {| conversations := []; configuration := cfg;
     clockReads := 0; uuidReads := 0; llmCalls := []; timers := [];
     awaiting := []; rejections := []; deliveries := [] |}.

(** [b] stands before [a] in [l]. *)
Definition before {A} (b a : A) (l : list A) : Prop :=
  exists l1 l2 l3, l = (l1 ++ b :: l2 ++ a :: l3)%list.

(** [a] is at least as recent as [b]. *)
Definition notOlder (a b : Conversation) : Prop :=
  (lastActivity b <= lastActivity a)%Z.

(** The first occurrence of [pat] in [s] is at the end of [pre]. *)
Definition firstOccurrence (pat pre post s : string) : Prop :=
  s = pre ++ pat ++ post /\
  forall k, k < String.length pre -> prefix pat (drop k s) = false.

(** An entry whose first event is a text [txt] sent by [u]. *)
Definition textEntry (u txt : string) (rest : list MessagingEvent) : Entry :=
  {| messaging :=
       Some ({| ev_sender := Some {| id := Some u |};
                ev_message := Some {| msg_text := Some txt |} |} :: rest) |}.

(** The store holds the text [txt] as a message of user [u]. *)
Definition holdsUserMessage (u txt : string) (w : World) : Prop :=
  exists c m,
    In c (conversations w) /\ userId c = Some u /\
    In m (messages c) /\ text m = txt /\ sender m = user.

(** An environment for examples: the clock advances by one millisecond
    at every reading. *)
Definition tickingEnv : Env :=
  {| now := fun n => (1000 + Z.of_nat n)%Z;
     randomUUID := fun n => String (ascii_of_nat (48 + n)) "-uuid";
     hmacSha256Hex := fun key data => "00ff";
     WEBHOOK_SECRET := None;
     JSON_stringify := fun _ => "{}";
     chatCompletion := fun _ _ => Some "Book here: {BOOKING_URL}";
     sendApi := fun _ _ => true |}.

(** The same environment with a clock that stays at one millisecond for
    three readings and has moved on by the fourth. *)
Definition oneTickEnv : Env :=
  {| now := fun n => if Nat.ltb n 3 then 1000%Z else 1001%Z;
     randomUUID := randomUUID tickingEnv;
     hmacSha256Hex := hmacSha256Hex tickingEnv;
     WEBHOOK_SECRET := None;
     JSON_stringify := JSON_stringify tickingEnv;
     chatCompletion := chatCompletion tickingEnv;
     sendApi := sendApi tickingEnv |}.

(** The environment of the examples with a digest that tells the
    payload ["{}"] from every other. *)
Definition digestEnv : Env :=
  {| now := now tickingEnv;
     randomUUID := randomUUID tickingEnv;
     hmacSha256Hex := fun key data => if data =? "{}" then "00ff" else "11ee";
     WEBHOOK_SECRET := None;
     JSON_stringify := JSON_stringify tickingEnv;
     chatCompletion := chatCompletion tickingEnv;
     sendApi := sendApi tickingEnv |}.

Definition exampleConfig : Configuration :=
  {| verifyToken := "myverifytoken";
     prompt := "You are a professional appointment setter for a business.";
     calendlyUrl := "https://cal.example/me" |}.

Definition textEvent (sid : option EventSender) (txt : option string) : Entry :=
  {| messaging := Some [ {| ev_sender := sid;
                            ev_message := Some {| msg_text := txt |} |} ] |}.

Definition instagramBody (es : list Entry) : WebhookBody :=
  {| object := Some "instagram"; entry := Some es |}.

(* ================================================================== *)
(** ** The server as a whole *)
(* ================================================================== *)

(** What can happen to a running server and touch its state: a POST to
    /webhook (of either file), the settling of a chat-completion request
    awaited by [Part000], the firing of a timer, a GET of
    /api/conversations. *)
Inductive ServerEvent :=
| EvIndexPost (req : Request)
| EvPart000Post (req : Request)
| EvSettled (a : Awaiting) (result : option string)
| EvTimer (recipient : option string) (txt : string)
| EvList.

Definition runEvent (E : Env) (ev : ServerEvent) (w : World) : World :=
  match ev with
  | EvIndexPost req => snd (Index.post_webhook E req w)
  | EvPart000Post req => snd (Part000.post_webhook E req w)
  | EvSettled a result => snd (Part000.callbackResume a result w)
  | EvTimer recipient txt => snd (timerCallback E recipient txt w)
  | EvList => snd (get_api_conversations w)
  end.

Fixpoint runEvents (E : Env) (evs : list ServerEvent) (w : World) : World :=
  match evs with
  | [] => w
  | ev :: rest => runEvents E rest (runEvent E ev w)
  end.

(** [c] is [c0] some appends later: the same conversation, with the
    messages of [c0] still at the front of its list. *)
Definition extends (c0 c : Conversation) : Prop :=
  conv_id c = conv_id c0 /\ userId c = userId c0 /\
  username c = username c0 /\ createdAt c = createdAt c0 /\
  exists more, messages c = (messages c0 ++ more)%list.

(** Every conversation of [l] is still in [l'], extended. *)
Definition grows (l l' : list Conversation) : Prop :=
  forall c0, In c0 l -> exists c, In c l' /\ extends c0 c.

(** The texts and senders appended for [u] by a sequence of store
    operations, in call order. *)
Fixpoint appendsFor (u : string) (ops : list StoreOp)
    : list (string * Sender) :=
  match ops with
  | [] => []
  | OpAppend v _ txt s :: rest =>
      if v =? u then (txt, s) :: appendsFor u rest else appendsFor u rest
  | OpList :: rest => appendsFor u rest
  end.

(** What the store holds for [u]: texts and senders, in stored order. *)
Definition storedFor (u : string) (w : World) : list (string * Sender) :=
  match lookupUser u (conversations w) with
  | Some c => map (fun m => (text m, sender m)) (messages c)
  | None => []
  end.

(** A clock that never goes back. *)
Definition monotoneClock (E : Env) : Prop :=
  forall n m, n <= m -> (now E n <= now E m)%Z.

(** The times of a conversation are in order: created, then the
    messages one after the other, then the last activity. *)
Definition chronological (c : Conversation) : Prop :=
  StronglySorted Z.le (map timestamp (messages c)) /\
  Forall (fun m => (createdAt c <= timestamp m <= lastActivity c)%Z)
         (messages c) /\
  (createdAt c <= lastActivity c)%Z.

(** The entry without the events that follow its first one. *)
Definition firstEventOnly (e : Entry) : Entry :=
  match messaging e with
  | Some (ev :: _) => {| messaging := Some [ev] |}
  | _ => e
  end.

Definition firstEventsOnly (req : Request) : Request :=
  {| x_hub_signature_256 := x_hub_signature_256 req;
     body := {| object := object (body req);
                entry := option_map (map firstEventOnly)
                           (entry (body req)) |} |}.

(** The computation [m] keeps the property [Inv] of the state, whether
    it returns or throws. *)
Definition keeps {A} (Inv : World -> Prop) (m : M A) : Prop :=
  forall w, Inv w -> Inv (snd (m w)).

(** The conversations are in chronological order, and no time in the
    store is later than a reading of the clock still to come. *)
Definition timed (E : Env) (w : World) : Prop :=
  Forall (fun c => chronological c /\
                   forall k, clockReads w <= k ->
                             (lastActivity c <= now E k)%Z)
         (conversations w).

(* ================================================================== *)
(** ** Configuration, status and connectivity tests *)
(* ================================================================== *)

Module Admin.

(** [process.env]. *)
Definition ProcessEnv := string -> option string.

(** The sections of the [configuration] object.  A field is [None]
    once an update has replaced its section by an object that does not
    have it. *)
Record InstagramSection := {
  pageId : option string;
  accessToken : option string;
  verifyToken : option string
}.

Record GptSection := {
  provider : option string;
  apiKey : option string;
  endpoint : option string;
  model : option string;
  prompt : option string
}.

Record BookingSection := {
  calendlyUrl : option string;
  bookingProvider : option string     (* booking.provider *)
}.

Record ResponsesSection := {
  welcomeMessage : option string;
  qualificationPrompt : option string;
  bookingOffer : option string;
  bookingLink : option string
}.

(** A [configuration] object all of whose sections are objects, as it
    is when the process starts. *)
Record LiveConfiguration := {
  instagram : InstagramSection;
  gpt : GptSection;
  booking : BookingSection;
  responses : ResponsesSection
}.

(** The [configuration] object as updates can leave it: a section is an
    object or, here [None], [null]. *)
Record StoredConfiguration := {
  s_instagram : option InstagramSection;
  s_gpt : option GptSection;
  s_booking : option BookingSection;
  s_responses : option ResponsesSection
}.

Definition stored (cfg : LiveConfiguration) : StoredConfiguration :=
  {| s_instagram := Some (instagram cfg); s_gpt := Some (gpt cfg);
     s_booking := Some (booking cfg); s_responses := Some (responses cfg) |}.

(** What an object has under a key: nothing, [null], or a value. *)
Inductive Carried (S : Type) : Type :=
| Absent
| Null
| Given (s : S).

Arguments Absent {S}.
Arguments Null {S}.
Arguments Given {S} s.

(** The body of POST /api/config, section by section. *)
Record ConfigUpdate := {
  u_instagram : Carried InstagramSection;
  u_gpt : Carried GptSection;
  u_booking : Carried BookingSection;
  u_responses : Carried ResponsesSection
}.

(** The body of POST /api/test/:service: an object that may carry some
    of the sections.  The handler reads it through [?.] only, which does
    not tell a section that is [null] from one that is not there: both
    are [None]. *)
Record ConfigBody := {
  b_instagram : option InstagramSection;
  b_gpt : option GptSection;
  b_booking : option BookingSection;
  b_responses : option ResponsesSection
}.

Definition newline : string := String (ascii_of_nat 10) EmptyString.

(** The system prompt of [src/index.js]. *)
Definition defaultPrompt : string :=
  "You are a professional appointment setter for a business. Your goal is to qualify leads and book appointments through natural conversation. Keep responses friendly, helpful, and human-like."
  ++ newline ++ newline
  ++ "Key objectives:" ++ newline
  ++ "1. Understand the user's needs" ++ newline
  ++ "2. Qualify them as a potential client" ++ newline
  ++ "3. Offer to schedule a consultation when appropriate" ++ newline
  ++ "4. Provide the booking link when they're interested"
  ++ newline ++ newline
  ++ "Always maintain a conversational, helpful tone and avoid sounding robotic.".

Definition defaultResponses : ResponsesSection :=
  {| welcomeMessage :=
       Some "Hey! Thanks for reaching out. I'd love to help you with your needs. What brings you here today?";
     qualificationPrompt :=
       Some "Tell me a bit more about what you're looking for so I can better assist you.";
     bookingOffer :=
       Some "It sounds like we might be a great fit! Would you like to schedule a quick consultation to discuss this further?";
     bookingLink :=
       Some "Perfect! Here's my calendar link to grab a time that works for you: {BOOKING_URL}" |}.

(** The system prompt of [src/unnamed/part_000]: the same lines, without
    the empty ones. *)
Definition part000_defaultPrompt : string :=
  "You are a professional appointment setter for a business. Your goal is to qualify leads and book appointments through natural conversation. Keep responses friendly, helpful, and human-like."
  ++ newline
  ++ "Key objectives:" ++ newline
  ++ "1. Understand the user's needs" ++ newline
  ++ "2. Qualify them as a potential client" ++ newline
  ++ "3. Offer to schedule a consultation when appropriate" ++ newline
  ++ "4. Provide the booking link when they're interested"
  ++ newline
  ++ "Always maintain a conversational, helpful tone and avoid sounding robotic.".

(** The initial value of [configuration]; the two files differ in the
    default endpoint and in the prompt. *)
Definition initialConfigurationWith (defaultEndpoint thePrompt : string)
    (env : ProcessEnv) : LiveConfiguration :=
  {| instagram :=
       {| pageId := Some (orElse (env "INSTAGRAM_PAGE_ID") "");
          accessToken := Some (orElse (env "INSTAGRAM_ACCESS_TOKEN") "");
          verifyToken :=
            Some (orElse (env "WEBHOOK_VERIFY_TOKEN") "myverifytoken") |};
     gpt :=
       {| provider := Some (orElse (env "LLM_PROVIDER") "openai");
          apiKey :=
            Some (orElse (env "OPENAI_API_KEY")
                    (orElse (env "GEMINI_API_KEY") ""));
          endpoint := Some (orElse (env "GPT_ENDPOINT") defaultEndpoint);
          model := Some (orElse (env "LLM_MODEL") "gpt-3.5-turbo");
          prompt := Some thePrompt |};
     booking :=
       {| calendlyUrl := Some (orElse (env "CALENDLY_URL") "");
          bookingProvider := Some "calendly" |};
     responses := defaultResponses |}.

(** [src/index.js]. *)
Definition initialConfiguration : ProcessEnv -> LiveConfiguration :=
  initialConfigurationWith "https://api.openai.com/v1/chat/completions"
    defaultPrompt.

(** [src/unnamed/part_000]: the process exits at once
    ([process.exit(1)], here [None]) when the page id or the access
    token is missing from the environment; its default endpoint ends
    with a space. *)
Definition part000_startup (env : ProcessEnv) : option LiveConfiguration :=
  if negb (truthy (env "INSTAGRAM_PAGE_ID"))
     || negb (truthy (env "INSTAGRAM_ACCESS_TOKEN"))
  then None
  else Some (initialConfigurationWith
               "https://api.openai.com/v1/chat/completions "
               part000_defaultPrompt env).

(** One key of [{ ...configuration, ...req.body }]: the value that the
    body has under it, [null] included, and the old one when the body
    has none. *)
Definition spreadKey {S} (old : option S) (new : Carried S) : option S :=
  match new with
  | Absent => old
  | Null => None
  | Given s => Some s
  end.

(** POST /api/config: [configuration = { ...configuration, ...req.body }]. *)
Definition spread (cfg : StoredConfiguration) (b : ConfigUpdate)
    : StoredConfiguration :=
  {| s_instagram := spreadKey (s_instagram cfg) (u_instagram b);
     s_gpt := spreadKey (s_gpt cfg) (u_gpt b);
     s_booking := spreadKey (s_booking cfg) (u_booking b);
     s_responses := spreadKey (s_responses cfg) (u_responses b) |}.

Record ConfigResponse := { saved : bool; savedMessage : string }.

Definition post_api_config (b : ConfigUpdate) (cfg : StoredConfiguration)
    : ConfigResponse * StoredConfiguration :=
  ({| saved := true; savedMessage := "Configuration saved successfully" |},
   spread cfg b).

(** GET /api/status. *)
Record StatusReport := {
  st_webhook : string;
  st_instagram : string;
  st_gpt : string;
  st_booking : string
}.

Definition connectedIf (v : option string) : string :=
  if truthy v then "connected" else "disconnected".

Definition get_api_status (cfg : LiveConfiguration) : StatusReport :=
  {| st_webhook := "connected";
     st_instagram := connectedIf (accessToken (instagram cfg));
     st_gpt := connectedIf (apiKey (gpt cfg));
     st_booking := connectedIf (calendlyUrl (booking cfg)) |}.

(** GET /api/status on the object as updates can leave it: reading a
    field of a section that is [null] throws. *)
Definition get_api_status_stored (cfg : StoredConfiguration)
    : Completion StatusReport :=
  match s_instagram cfg, s_gpt cfg, s_booking cfg with
  | Some i, Some g, Some k =>
      Normal {| st_webhook := "connected";
                st_instagram := connectedIf (accessToken i);
                st_gpt := connectedIf (apiKey g);
                st_booking := connectedIf (calendlyUrl k) |}
  | _, _, _ => Throw TypeError
  end.

(** GET /webhook on the whole configuration object, where the verify
    token may have been lost to an update. *)
Definition get_webhook (cfg : LiveConfiguration)
    (mode token challenge : option string) : Response :=
  if truthy mode && truthy token then
    if strictEq mode (Some "subscribe")
       && strictEq token (verifyToken (instagram cfg))
    then {| code := 200; sent := challenge |}
    else sendStatus 403
  else sendStatus 400.

(** GET /webhook on the object as updates can leave it:
    [configuration.instagram.verifyToken] is read when the mode is
    ["subscribe"], and throws when the section is [null]. *)
Definition get_webhook_stored (cfg : StoredConfiguration)
    (mode token challenge : option string) : Completion Response :=
  if truthy mode && truthy token then
    if strictEq mode (Some "subscribe") then
      match s_instagram cfg with
      | Some i =>
          if strictEq token (verifyToken i)
          then Normal {| code := 200; sent := challenge |}
          else Normal (sendStatus 403)
      | None => Throw TypeError
      end
    else Normal (sendStatus 403)
  else Normal (sendStatus 400).

(** The three reads that the webhook pipeline makes of the
    configuration, when all three are there. *)
Definition pipelineView (cfg : LiveConfiguration) : option Configuration :=
  match verifyToken (instagram cfg), prompt (gpt cfg),
        calendlyUrl (booking cfg) with
  | Some v, Some p, Some u =>
      Some (Build_Configuration v p u)
  | _, _, _ => None
  end.

(* ------------------------------------------------------------------ *)
(** *** POST /api/test/:service of [src/index.js] *)

(** The request that a connectivity test sends. *)
Inductive Probe :=
| GetPage (url accessToken : string)
| PostChat (endpoint : option string) (model apiKey : string)
| HeadUrl (url : string).

(** How an axios call ends: resolved with a status and data, or rejected
    with, when the server answered, its status and
    [data?.error?.message], and with the error's [code]. *)
Inductive HttpOutcome :=
| Resolved (status : nat) (data : string)
| Rejected (response : option (nat * option string)) (code : option string).

Record TestResponse := {
  httpStatus : nat;
  success : bool;
  data : option string;
  error : option string;
  message : option string
}.

Definition failure (msg : string) : TestResponse :=
  {| httpStatus := 200; success := false; data := None;
     error := Some msg; message := None |}.

(** [`${status}`]. *)
Definition showStatus (n : nat) : string :=
  DecimalString.NilEmpty.string_of_uint (Nat.to_uint n).

Definition instagramErrorMessage (response : option (nat * option string))
    (code : option string) : string :=
  match response with
  | Some (status, errMessage) =>
      if Nat.eqb status 400 then
        "Invalid Instagram Page ID or Access Token. Please verify your credentials."
      else if Nat.eqb status 401 then
        "Instagram Access Token is invalid or expired. Please generate a new token."
      else if Nat.eqb status 403 then
        "Access denied. Please check your Instagram API permissions."
      else if Nat.eqb status 404 then
        "Instagram Page not found. Please verify your Page ID."
      else "Instagram API error (" ++ showStatus status ++ "): "
           ++ orElse errMessage "Unknown error"
  | None =>
      if strictEq code (Some "ENOTFOUND") then
        "Network error: Unable to reach Instagram API. Check your internet connection."
      else if strictEq code (Some "ETIMEDOUT") then
        "Request timeout: Instagram API is not responding."
      else "Instagram API connection failed"
  end.

Definition llmErrorMessage (response : option (nat * option string))
    : string :=
  match response with
  | Some (status, errMessage) =>
      if Nat.eqb status 401 then
        "Invalid API Key. Please check your API key."
      else if Nat.eqb status 403 then
        "Access forbidden. Please check your API permissions."
      else if Nat.eqb status 429 then
        "API rate limit exceeded. Please try again later."
      else if Nat.eqb status 500 then
        "API server error. Please try again later."
      else "API error (" ++ showStatus status ++ "): "
           ++ orElse errMessage "Unknown error"
  | None => "LLM API connection failed"
  end.

Definition bookingErrorMessage (response : option (nat * option string))
    (code : option string) : string :=
  match response with
  | Some (status, _) => "Booking URL returned status " ++ showStatus status
  | None =>
      if strictEq code (Some "ENOTFOUND") then
        "Booking URL not found. Please check the URL format."
      else "Booking URL is not accessible"
  end.

(** [testConfig.section?.field]. *)
Definition field {S} (sec : option S) (f : S -> option string)
    : option string :=
  match sec with
  | Some s => f s
  | None => None
  end.

(** The handler, on the service named in the path and the candidate
    configuration of the body; [http] answers the request it sends.  The
    result is the response and the requests sent. *)
Definition post_api_test (http : Probe -> HttpOutcome) (service : string)
    (testConfig : ConfigBody) : TestResponse * list Probe :=
  if service =? "instagram" then
    let page := field (b_instagram testConfig) pageId in
    let token := field (b_instagram testConfig) accessToken in
    if negb (truthy page) || negb (truthy token) then
      (failure "Missing Instagram Page ID or Access Token. Please check your configuration.", [])
    else
      let request :=
        GetPage ("https://graph.facebook.com/v18.0/" ++ orElse page "")
                (orElse token "") in
      match http request with
      | Resolved _ d =>
          ({| httpStatus := 200; success := true; data := Some d;
              error := None; message := None |}, [request])
      | Rejected response code =>
          (failure (instagramErrorMessage response code), [request])
      end
  else if service =? "gpt" then
    let key := field (b_gpt testConfig) apiKey in
    if negb (truthy key) then
      (failure "Missing API Key. Please check your configuration.", [])
    else
      let request :=
        PostChat (field (b_gpt testConfig) endpoint)
                 (orElse (field (b_gpt testConfig) model) "gpt-3.5-turbo")
                 (orElse key "") in
      match http request with
      | Resolved _ d =>
          ({| httpStatus := 200; success := true; data := Some d;
              error := None; message := None |}, [request])
      | Rejected response _ =>
          (failure (llmErrorMessage response), [request])
      end
  else if service =? "booking" then
    let url := field (b_booking testConfig) calendlyUrl in
    if negb (truthy url) then
      (failure "Missing booking URL. Please check your configuration.", [])
    else
      let request := HeadUrl (orElse url "") in
      match http request with
      | Resolved status _ =>
          ({| httpStatus := 200; success := Nat.eqb status 200;
              data := None; error := None; message := None |},
           [request])
      | Rejected response code =>
          (failure (bookingErrorMessage response code), [request])
      end
  else
    ({| httpStatus := 400; success := false; data := None; error := None;
        message := Some "Unknown service" |}, []).

End Admin.

(* ================================================================== *)
(** ** Strings *)
(* ================================================================== *)

Lemma append_nil_r (s : string) : s ++ "" = s.
Proof. induction s as [|c s IH]; simpl; [reflexivity | now rewrite IH]. Qed.

Lemma append_assoc (a b c : string) : (a ++ b) ++ c = a ++ (b ++ c).
Proof. induction a as [|x a IH]; simpl; [reflexivity | now rewrite IH]. Qed.

Lemma length_append (a b : string) :
  String.length (a ++ b) = String.length a + String.length b.
Proof. induction a as [|x a IH]; simpl; [reflexivity | now rewrite IH]. Qed.

Lemma take_drop (n : nat) (s : string) : take n s ++ drop n s = s.
Proof.
  revert s; induction n as [|n IH]; intros [|c s]; simpl; try reflexivity.
  now rewrite IH.
Qed.

Lemma take_app (a b : string) : take (String.length a) (a ++ b) = a.
Proof. induction a as [|x a IH]; simpl; [now destruct b | now rewrite IH]. Qed.

Lemma drop_app (a b : string) : drop (String.length a) (a ++ b) = b.
Proof. induction a as [|x a IH]; simpl; [reflexivity | exact IH]. Qed.

Lemma drop_add (n m : nat) (s : string) : drop (n + m) s = drop m (drop n s).
Proof.
  revert s; induction n as [|n IH]; intros s; simpl; [reflexivity|].
  destruct s as [|c s]; [now destruct m | apply IH].
Qed.

Lemma length_drop (n : nat) (s : string) :
  String.length (drop n s) = String.length s - n.
Proof.
  revert s; induction n as [|n IH]; intros [|c s]; simpl; auto with arith.
Qed.

Lemma prefix_app (a b : string) : prefix a (a ++ b) = true.
Proof.
  induction a as [|x a IH]; simpl; [now destruct b|].
  destruct (ascii_dec x x); [exact IH | congruence].
Qed.

Lemma prefix_true_app (a s : string) :
  prefix a s = true -> s = a ++ drop (String.length a) s.
Proof.
  revert s; induction a as [|x a IH]; intros s H; simpl; [reflexivity|].
  destruct s as [|y s]; simpl in H; [discriminate|].
  destruct (ascii_dec x y); [subst | discriminate].
  f_equal. now apply IH.
Qed.

(** [sliceLast k s] is the suffix of [s] of length [min k (length s)]. *)
Lemma sliceLast_suffix (k : nat) (s : string) :
  take (String.length s - k) s ++ sliceLast k s = s /\
  String.length (sliceLast k s) = Nat.min k (String.length s).
Proof.
  unfold sliceLast; split; [apply take_drop|].
  rewrite length_drop. lia.
Qed.

(** [indexOf] finds the first occurrence. *)
Lemma indexOf_Some (pat s : string) (n : nat) :
  indexOf pat s = Some n ->
  prefix pat (drop n s) = true /\
  forall k, k < n -> prefix pat (drop k s) = false.
Proof.
  revert n; induction s as [|c s IH]; intros n H.
  - cbn [indexOf] in H. destruct (prefix pat "") eqn:P; [|discriminate].
    injection H as <-. split; [exact P | intros k Hk; lia].
  - cbn [indexOf] in H. destruct (prefix pat (String c s)) eqn:P.
    + injection H as <-. split; [exact P | intros k Hk; lia].
    + destruct (indexOf pat s) as [m|] eqn:I; [|discriminate].
      injection H as <-. destruct (IH m eq_refl) as [H1 H2].
      split; [exact H1|]. intros [|k] Hk; [exact P|].
      simpl. apply H2. lia.
Qed.

Lemma indexOf_None (pat s : string) :
  indexOf pat s = None -> forall k, prefix pat (drop k s) = false.
Proof.
  induction s as [|c s IH]; intros H k.
  - cbn [indexOf] in H. destruct (prefix pat "") eqn:P; [discriminate|].
    now destruct k.
  - cbn [indexOf] in H. destruct (prefix pat (String c s)) eqn:P;
      [discriminate|].
    destruct (indexOf pat s) eqn:I; [discriminate|].
    destruct k as [|k]; [exact P | simpl; now apply IH].
Qed.

Lemma indexOf_first (pat pre post s : string) :
  firstOccurrence pat pre post s -> indexOf pat s = Some (String.length pre).
Proof.
  intros [-> Hfirst].
  destruct (indexOf pat (pre ++ pat ++ post)) as [n|] eqn:I.
  - destruct (indexOf_Some _ _ _ I) as [Hn Hlt].
    destruct (Nat.lt_trichotomy n (String.length pre)) as [L|[L|L]].
    + rewrite (Hfirst n L) in Hn. discriminate.
    + now subst.
    + specialize (Hlt _ L). rewrite drop_app, prefix_app in Hlt. discriminate.
  - pose proof (indexOf_None _ _ I (String.length pre)) as H.
    rewrite drop_app, prefix_app in H. discriminate.
Qed.

(** A template without a dollar sign is inserted as it is. *)
Lemma GetSubstitution_plain (matched pre post template : string) :
  indexOf "$" template = None ->
  GetSubstitution matched pre post template = template.
Proof.
  induction template as [|c t IH]; intros H; [reflexivity|].
  cbn [indexOf prefix] in H. cbn [GetSubstitution].
  destruct (ascii_dec "$" c) as [<-|Hc].
  - now destruct t.
  - destruct (Ascii.eqb_spec c "$") as [->|_]; [congruence|].
    destruct (indexOf "$" t); [discriminate|]. now rewrite IH.
Qed.

(** Replacing by a plain template puts it in place of the first
    occurrence and keeps the rest verbatim. *)
Lemma replace_first_plain (pat template pre post s : string) :
  firstOccurrence pat pre post s ->
  indexOf "$" template = None ->
  replace pat template s = pre ++ template ++ post.
Proof.
  intros Hocc Hplain. unfold replace.
  rewrite (indexOf_first _ _ _ _ Hocc). destruct Hocc as [-> _].
  cbv zeta. rewrite GetSubstitution_plain by exact Hplain.
  rewrite take_app, drop_add, drop_app, drop_app. reflexivity.
Qed.

Lemma replace_first (pat template pre post s : string) :
  firstOccurrence pat pre post s ->
  replace pat template s =
  pre ++ GetSubstitution pat pre post template ++ post.
Proof.
  intros Hocc. unfold replace.
  rewrite (indexOf_first _ _ _ _ Hocc). destruct Hocc as [-> _].
  cbv zeta. rewrite take_app, drop_add, drop_app, drop_app. reflexivity.
Qed.

Lemma replace_absent (pat template s : string) :
  includes pat s = false -> replace pat template s = s.
Proof.
  unfold includes, replace. now destruct (indexOf pat s).
Qed.

(* ================================================================== *)
(** ** Placeholder substitution *)
(* ================================================================== *)

(** The guarded form of [Part000] and the plain call of [Index] deliver
    the same text. *)
Lemma guarded_replace (link reply : string) :
  (if includes BOOKING_URL reply then replace BOOKING_URL link reply
   else reply) = replace BOOKING_URL link reply.
Proof.
  destruct (includes BOOKING_URL reply) eqn:I; [reflexivity|].
  symmetry. now apply replace_absent.
Qed.

(** With a link that has no dollar sign, the first placeholder is
    replaced by the link, and what follows it stays as it was. *)
Lemma substitute_plain_link (link pre post reply : string) :
  firstOccurrence BOOKING_URL pre post reply ->
  indexOf "$" link = None ->
  replace BOOKING_URL link reply = pre ++ link ++ post.
Proof. apply replace_first_plain. Qed.

Example substitute_spec_example :
  replace BOOKING_URL "https://cal.example/me" "Book here: {BOOKING_URL}"
  = "Book here: https://cal.example/me".
Proof. reflexivity. Qed.

Example substitute_second_occurrence_kept :
  replace BOOKING_URL "https://cal.example/me"
    "{BOOKING_URL} or again {BOOKING_URL}"
  = "https://cal.example/me or again {BOOKING_URL}".
Proof. reflexivity. Qed.

(** C6, at a booking link that holds the pattern [$&]: the reply has the
    placeholder, yet the delivered text is not the reply with the
    placeholder replaced by the configured link.  [replace] expands the
    link as a replacement template, and [$&] brings the placeholder back.
    The text scheduled for delivery by either handler is that text. *)
Theorem substitute_dollar_link :
  let link := "https://cal.example/me?ref=$&" in
  let reply := "Book here: {BOOKING_URL}" in
  let cfg := {| verifyToken := "t"; prompt := "p"; calendlyUrl := link |} in
  replace BOOKING_URL link reply
    = "Book here: https://cal.example/me?ref={BOOKING_URL}"
  /\ replace BOOKING_URL link reply <> "Book here: " ++ link
  /\ timers (snd (Part000.callbackResume
                    {| aw_sender := Some "1000000001"; aw_call := 0 |}
                    (Some reply) (freshWorld cfg)))
     = [(Some "1000000001",
         "Book here: https://cal.example/me?ref={BOOKING_URL}")].
Proof.
  cbv zeta. split; [reflexivity|]. split; [|reflexivity].
  intros H. discriminate H.
Qed.

(** C10, at a reply with two placeholders and a booking link that holds
    the pattern [$$]: the later placeholder stays, but the first one is
    not replaced by the configured link: [$$] is expanded to one dollar
    sign. *)
Theorem substitute_first_only_dollar_link :
  let link := "https://cal.example/me?price=$$10" in
  let reply := "Book: {BOOKING_URL} (again: {BOOKING_URL})" in
  firstOccurrence BOOKING_URL "Book: " " (again: {BOOKING_URL})" reply
  /\ replace BOOKING_URL link reply
     = "Book: https://cal.example/me?price=$10 (again: {BOOKING_URL})"
  /\ replace BOOKING_URL link reply
     <> "Book: " ++ link ++ " (again: {BOOKING_URL})".
Proof.
  cbv zeta. split; [|split; [reflexivity | intros H; discriminate H]].
  split; [reflexivity|].
  intros k Hk. simpl in Hk.
  do 6 (destruct k as [|k]; [reflexivity|]). lia.
Qed.

(* ================================================================== *)
(** ** Signature verifier *)
(* ================================================================== *)

Lemma sameBytes_eq (a b : list nat) : sameBytes a b = true <-> a = b.
Proof.
  revert b; induction a as [|x a IH]; intros [|y b]; cbn [sameBytes];
    try (split; [discriminate | discriminate]); [tauto|].
  rewrite andb_true_iff, Nat.eqb_eq, IH.
  split; [intros [-> ->]; reflexivity | intros [= -> ->]; now split].
Qed.

Lemma utf8_unit_inj (c d : ascii) (r r' : list nat) :
  (utf8_unit c ++ r = utf8_unit d ++ r')%list -> c = d /\ r = r'.
Proof.
  unfold utf8_unit.
  pose proof (nat_ascii_bounded c) as Hc.
  pose proof (nat_ascii_bounded d) as Hd.
  pose proof (ascii_nat_embedding c) as Ec.
  pose proof (ascii_nat_embedding d) as Ed.
  pose proof (Nat.div_mod_eq (nat_of_ascii c) 64) as Dc.
  pose proof (Nat.div_mod_eq (nat_of_ascii d) 64) as Dd.
  pose proof (Nat.mod_upper_bound (nat_of_ascii c) 64) as Mc.
  pose proof (Nat.mod_upper_bound (nat_of_ascii d) 64) as Md.
  cbv zeta.
  generalize dependent (nat_of_ascii c / 64).
  generalize dependent (nat_of_ascii c mod 64).
  generalize dependent (nat_of_ascii d / 64).
  generalize dependent (nat_of_ascii d mod 64).
  intros rd Md qd Dd rc Mc qc Dc.
  destruct (Nat.ltb_spec (nat_of_ascii c) 128) as [Lc|Lc];
    destruct (Nat.ltb_spec (nat_of_ascii d) 128) as [Ld|Ld];
    cbn [app]; intros Heq.
  - injection Heq as H1 H2. split; [|exact H2].
    rewrite <- Ec, <- Ed. now rewrite H1.
  - exfalso. injection Heq as H1 H2. lia.
  - exfalso. injection Heq as H1 H2. lia.
  - injection Heq as H1 H2 H3. split; [|exact H3].
    rewrite <- Ec, <- Ed. f_equal. lia.
Qed.

Lemma utf8_unit_cons (c : ascii) :
  exists x r, utf8_unit c = x :: r.
Proof. unfold utf8_unit. destruct (Nat.ltb _ _); eauto. Qed.

(** Two strings with the same UTF-8 bytes are the same string. *)
Lemma utf8_inj (a b : string) : utf8 a = utf8 b -> a = b.
Proof.
  revert b; induction a as [|c a IH]; intros [|d b]; cbn [utf8]; intros H.
  - reflexivity.
  - destruct (utf8_unit_cons d) as (x & r & Hd). rewrite Hd in H.
    discriminate H.
  - destruct (utf8_unit_cons c) as (x & r & Hc). rewrite Hc in H.
    discriminate H.
  - apply utf8_unit_inj in H. destruct H as [-> H]. now rewrite (IH b H).
Qed.

Lemma sameBytes_utf8 (a b : string) : sameBytes (utf8 a) (utf8 b) = (a =? b).
Proof.
  destruct (String.eqb_spec a b) as [->|Hne].
  - now apply sameBytes_eq.
  - destruct (sameBytes (utf8 a) (utf8 b)) eqn:H; [|reflexivity].
    apply sameBytes_eq, utf8_inj in H. contradiction.
Qed.

(** What the verifier answers, case by case. *)
Lemma verifyWebhookSignature_cases (E : Env) (payload : string)
    (signature : option string) :
  let expected := "sha256=" ++ hmacSha256Hex E (webhookSecret E) payload in
  verifyWebhookSignature E payload signature =
  match signature with
  | None => Throw TypeError
  | Some given =>
      if Nat.eqb (List.length (utf8 given)) (List.length (utf8 expected))
      then Normal (given =? expected)
      else Throw RangeError
  end.
Proof.
  destruct signature as [given|]; [|reflexivity].
  cbv zeta. unfold verifyWebhookSignature, timingSafeEqual.
  cbn [Buffer_from]. now rewrite sameBytes_utf8.
Qed.

Lemma verifyWebhookSignature_same_length (E : Env) (payload given : string) :
  List.length (utf8 given)
    = List.length
        (utf8 ("sha256=" ++ hmacSha256Hex E (webhookSecret E) payload)) ->
  verifyWebhookSignature E payload (Some given)
  = Normal (given =? "sha256=" ++ hmacSha256Hex E (webhookSecret E) payload).
Proof.
  intros H. rewrite verifyWebhookSignature_cases. cbv zeta.
  now rewrite H, Nat.eqb_refl.
Qed.

Lemma verifyWebhookSignature_correct (E : Env) (payload : string) :
  verifyWebhookSignature E payload
    (Some ("sha256=" ++ hmacSha256Hex E (webhookSecret E) payload))
  = Normal true.
Proof.
  rewrite verifyWebhookSignature_same_length by reflexivity.
  now rewrite String.eqb_refl.
Qed.

(** C2, where the code leaves it: without a header the verifier throws a
    TypeError, and with a header whose UTF-8 bytes are not as many as
    those of the expected signature it throws a RangeError; neither call
    returns [false]. *)
Theorem verifyWebhookSignature_throws (E : Env) (payload : string) :
  verifyWebhookSignature E payload None = Throw TypeError /\
  forall given,
    List.length (utf8 given)
      <> List.length
           (utf8 ("sha256=" ++ hmacSha256Hex E (webhookSecret E) payload)) ->
    verifyWebhookSignature E payload (Some given) = Throw RangeError.
Proof.
  split; [reflexivity|]. intros given H.
  rewrite verifyWebhookSignature_cases. cbv zeta.
  now apply Nat.eqb_neq in H; rewrite H.
Qed.

Lemma verifyWebhookSignature_throws_witness :
  verifyWebhookSignature tickingEnv "{}" None = Throw TypeError /\
  verifyWebhookSignature tickingEnv "{}" (Some "sha256=abc") = Throw RangeError.
Proof.
  destruct (verifyWebhookSignature_throws tickingEnv "{}") as [H1 H2].
  split; [exact H1|]. apply H2. vm_compute. intros H. discriminate H.
Defined.

(** A header with a character that is not ASCII is longer in bytes than
    in characters: the one below has as many characters as the expected
    signature and is refused by an exception, and the one after it has
    one character less and is refused by [false]. *)
Example verifier_counts_bytes :
  let expected := "sha256=" ++ hmacSha256Hex tickingEnv "default_secret" "{}" in
  let e_acute := String (ascii_of_nat 233) EmptyString in
  String.length ("sha256=00f" ++ e_acute) = String.length expected /\
  verifyWebhookSignature tickingEnv "{}" (Some ("sha256=00f" ++ e_acute))
  = Throw RangeError /\
  verifyWebhookSignature tickingEnv "{}" (Some ("sha256=00" ++ e_acute))
  = Normal false.
Proof. vm_compute. repeat split. Qed.

(* ================================================================== *)
(** ** GET /webhook *)
(* ================================================================== *)

Lemma truthy_Some (v : option string) :
  truthy v = true <-> exists s, v = Some s /\ s <> "".
Proof.
  destruct v as [s|]; simpl.
  - destruct (String.eqb_spec s "") as [->|Hne]; simpl; split.
    + discriminate.
    + intros (s' & Hs & H). injection Hs as <-. contradiction.
    + intros _. now exists s.
    + reflexivity.
  - split; [discriminate | intros (s & H & _); discriminate].
Qed.

Lemma strictEq_refl (a : option string) : strictEq a a = true.
Proof. destruct a; simpl; [apply String.eqb_refl | reflexivity]. Qed.

Lemma strictEq_true (a : option string) (b : string) :
  strictEq a (Some b) = true <-> a = Some b.
Proof.
  destruct a as [x|]; simpl; [|split; discriminate].
  rewrite String.eqb_eq. split; [now intros -> | now intros [= ->]].
Qed.

(** The claim of C3 reads "present" where the handler tests truthiness:
    with [hub.verify_token] present and empty, and [hub.mode] equal to
    ["subscribe"], the answer is neither the 200 nor the 403 that the
    claim leaves for requests that carry both parameters. *)
Lemma get_webhook_present_is_not_enough :
  ~ (forall cfg mode token challenge m t,
       mode = Some m -> token = Some t ->
       code (get_webhook cfg mode token challenge) = 200 \/
       code (get_webhook cfg mode token challenge) = 403).
Proof.
  intros H.
  destruct (H exampleConfig (Some "subscribe") (Some "") (Some "1158201444")
              "subscribe" "" eq_refl eq_refl) as [H1|H1];
    discriminate H1.
Qed.

(** C3, amended: when [hub.mode] and [hub.verify_token] are both present
    and not empty, the answer is 200 with the challenge as its body if
    the mode is ["subscribe"] and the token is the configured one, and
    403 otherwise, and it is 200 only in the first case; when one of the
    two is absent or empty, the answer is 400. *)
Theorem get_webhook_response (cfg : Configuration)
    (mode token challenge : option string) :
  (forall m t,
      mode = Some m -> m <> "" -> token = Some t -> t <> "" ->
      (m = "subscribe" /\ t = verifyToken cfg ->
         get_webhook cfg mode token challenge
         = {| code := 200; sent := challenge |}) /\
      (~ (m = "subscribe" /\ t = verifyToken cfg) ->
         code (get_webhook cfg mode token challenge) = 403) /\
      (code (get_webhook cfg mode token challenge) = 200 <->
         m = "subscribe" /\ t = verifyToken cfg)) /\
  (mode = None \/ mode = Some "" \/ token = None \/ token = Some "" ->
   code (get_webhook cfg mode token challenge) = 400).
Proof.
  split.
  - intros m t -> Hm -> Ht. unfold get_webhook. simpl.
    destruct (String.eqb_spec m ""); [contradiction|].
    destruct (String.eqb_spec t ""); [contradiction|]. simpl.
    destruct (String.eqb_spec m "subscribe") as [->|Hsub];
      destruct (String.eqb_spec t (verifyToken cfg)) as [->|Htok]; simpl.
    + split; [reflexivity|]. split; [|tauto].
      intros H. exfalso. apply H. now split.
    + split; [intros [_ H]; contradiction|]. split; [reflexivity|].
      split; [discriminate | intros [_ H]; contradiction].
    + split; [intros [H _]; contradiction|]. split; [reflexivity|].
      split; [discriminate | intros [H _]; contradiction].
    + split; [intros [H _]; contradiction|]. split; [reflexivity|].
      split; [discriminate | intros [H _]; contradiction].
  - unfold get_webhook.
    intros [ -> | [ -> | [ -> | -> ] ] ]; simpl; try reflexivity;
      destruct (truthy mode); reflexivity.
Qed.

Lemma get_webhook_response_witness :
  get_webhook exampleConfig (Some "subscribe") (Some "myverifytoken")
    (Some "1158201444")
  = {| code := 200; sent := Some "1158201444" |}
  /\ code (get_webhook exampleConfig (Some "subscribe") (Some "other")
             (Some "1158201444")) = 403
  /\ code (get_webhook exampleConfig None (Some "myverifytoken")
             (Some "1158201444")) = 400.
Proof.
  split; [|split].
  - destruct (get_webhook_response exampleConfig (Some "subscribe")
                (Some "myverifytoken") (Some "1158201444")) as [H _].
    destruct (H "subscribe" "myverifytoken" eq_refl
                ltac:(discriminate) eq_refl ltac:(discriminate))
      as [H1 _].
    apply H1. split; reflexivity.
  - destruct (get_webhook_response exampleConfig (Some "subscribe")
                (Some "other") (Some "1158201444")) as [H _].
    destruct (H "subscribe" "other" eq_refl
                ltac:(discriminate) eq_refl ltac:(discriminate))
      as [_ [H2 _]].
    apply H2. intros [_ H3]. discriminate H3.
  - destruct (get_webhook_response exampleConfig None
                (Some "myverifytoken") (Some "1158201444")) as [_ H].
    apply H. left. reflexivity.
Defined.

(* ================================================================== *)
(** ** Conversation store *)
(* ================================================================== *)

Lemma findWithIndex_Some {A} (p : A -> bool) (l : list A) (i : nat) (x : A) :
  findWithIndex p l = Some (i, x) ->
  exists l1 l2,
    l = (l1 ++ x :: l2)%list /\ List.length l1 = i /\ p x = true /\
    Forall (fun y => p y = false) l1.
Proof.
  revert i; induction l as [|y l IH]; intros i H; [discriminate|].
  cbn [findWithIndex] in H. destruct (p y) eqn:Py.
  - injection H as <- <-. now exists [], l.
  - destruct (findWithIndex p l) as [[j z]|] eqn:F; [|discriminate].
    injection H as <- <-.
    destruct (IH j eq_refl) as (l1 & l2 & -> & <- & Px & Hall).
    exists (y :: l1), l2. repeat split; auto.
Qed.

Lemma findWithIndex_None {A} (p : A -> bool) (l : list A) :
  findWithIndex p l = None -> Forall (fun y => p y = false) l.
Proof.
  induction l as [|y l IH]; intros H; [constructor|].
  cbn [findWithIndex] in H. destruct (p y) eqn:Py; [discriminate|].
  destruct (findWithIndex p l) as [[j z]|]; [discriminate|].
  constructor; auto.
Qed.

Lemma findWithIndex_find {A} (p : A -> bool) (l : list A) :
  find p l = option_map snd (findWithIndex p l).
Proof.
  induction l as [|y l IH]; [reflexivity|].
  cbn [find findWithIndex]. destruct (p y); [reflexivity|].
  rewrite IH. now destruct (findWithIndex p l) as [[j z]|].
Qed.

Lemma lookupUser_findWithIndex (u : string) (cs : list Conversation) :
  lookupUser u cs = option_map snd (findWithIndex (hasUserId (Some u)) cs).
Proof. unfold lookupUser. now rewrite <- findWithIndex_find. Qed.

Lemma setAt_middle {A} (l1 l2 : list A) (x y : A) :
  setAt (List.length l1) y (l1 ++ x :: l2) = (l1 ++ y :: l2)%list.
Proof. induction l1 as [|z l1 IH]; simpl; [reflexivity | now rewrite IH]. Qed.

Lemma setAt_last {A} (l : list A) (x y : A) :
  setAt (List.length l) y (l ++ [x]) = (l ++ [y])%list.
Proof. apply setAt_middle. Qed.

(** The conversation exists: one message is pushed onto it. *)
Lemma addMessage_existing (E : Env) (w : World) (uid name : option string)
    (txt : string) (s : Sender) (i : nat) (c0 : Conversation) :
  findWithIndex (hasUserId uid) (conversations w) = Some (i, c0) ->
  let m := {| msg_id := randomUUID E (uuidReads w); text := txt;
              sender := s; timestamp := now E (clockReads w) |} in
  let c := pushMessage m (now E (S (clockReads w))) c0 in
  addMessageToConversation E uid name txt s w
  = (Normal c, storeStep (setAt i c (conversations w)) 2 1 w).
Proof.
  intros H. unfold addMessageToConversation, bind, getConversations.
  rewrite H. reflexivity.
Qed.

(** The conversation does not exist: it is created at the end of the
    array, then one message is pushed onto it. *)
Lemma addMessage_created (E : Env) (w : World) (u : string)
    (name : option string) (txt : string) (s : Sender) :
  findWithIndex (hasUserId (Some u)) (conversations w) = None ->
  let c := created E w (Some u) (orElse name ("user_" ++ sliceLast 6 u))
             txt s in
  addMessageToConversation E (Some u) name txt s w
  = (Normal c, storeStep (conversations w ++ [c]) 4 2 w).
Proof.
  intros H. unfold addMessageToConversation, bind, getConversations.
  rewrite H. unfold created, storeStep.
  destruct name as [n|]; cbn; [destruct (n =? ""); cbn|];
    rewrite setAt_last; reflexivity.
Qed.

(** Without a user id, a username makes a conversation that has no
    user id. *)
Lemma addMessage_created_unidentified (E : Env) (w : World)
    (n txt : string) (s : Sender) :
  findWithIndex (hasUserId None) (conversations w) = None ->
  n <> "" ->
  let c := created E w None n txt s in
  addMessageToConversation E None (Some n) txt s w
  = (Normal c, storeStep (conversations w ++ [c]) 4 2 w).
Proof.
  intros H Hn. unfold addMessageToConversation, bind, getConversations.
  rewrite H. unfold created, storeStep.
  destruct (String.eqb_spec n "") as [->|_]; [contradiction|].
  cbn. rewrite setAt_last. reflexivity.
Qed.

(** Without a user id and without a username nothing is appended:
    [slice] is called on [undefined]. *)
Lemma addMessage_undefined (E : Env) (w : World) (name : option string)
    (txt : string) (s : Sender) :
  findWithIndex (hasUserId None) (conversations w) = None ->
  truthy name = false ->
  addMessageToConversation E None name txt s w
  = (Throw TypeError, storeStep (conversations w) 0 1 w).
Proof.
  intros H Hn. unfold addMessageToConversation, bind, getConversations.
  rewrite H. destruct name as [n|]; [|reflexivity].
  simpl in Hn. destruct (n =? ""); [reflexivity | discriminate].
Qed.

Lemma allIdentified_find (w : World) :
  allIdentified w -> findWithIndex (hasUserId None) (conversations w) = None.
Proof.
  unfold allIdentified. induction 1 as [|c l Hc _ IH]; [reflexivity|].
  cbn [findWithIndex]. rewrite IH. unfold hasUserId.
  destruct (userId c); [reflexivity | contradiction].
Qed.

Lemma uniqueUsers_existing (l1 l2 : list Conversation) (c0 c : Conversation) :
  userId c = userId c0 ->
  NoDup (map userId (l1 ++ c0 :: l2)) -> NoDup (map userId (l1 ++ c :: l2)).
Proof.
  intros H. rewrite !map_app. cbn [map]. now rewrite H.
Qed.

Lemma uniqueUsers_created (cs : list Conversation) (c : Conversation) :
  Forall (fun y => hasUserId (userId c) y = false) cs ->
  NoDup (map userId cs) -> NoDup (map userId (cs ++ [c])).
Proof.
  intros Hall Hnd. rewrite map_app. cbn [map].
  apply (Permutation_NoDup (l := userId c :: map userId cs));
    [apply Permutation_cons_append|].
  constructor; [|exact Hnd].
  rewrite in_map_iff. intros (y & Hy & Hin).
  rewrite Forall_forall in Hall. specialize (Hall y Hin).
  unfold hasUserId in Hall. rewrite Hy, strictEq_refl in Hall.
  discriminate.
Qed.

(* ------------------------------------------------------------------ *)
(** *** Listing *)

Lemma insertBy_perm {A} (cmp : A -> A -> Z) (x : A) (l : list A) :
  Permutation (insertBy cmp x l) (x :: l).
Proof.
  induction l as [|y l IH]; simpl; [reflexivity|].
  destruct (cmp x y <=? 0)%Z; [reflexivity|].
  rewrite IH. apply perm_swap.
Qed.

Lemma sortBy_perm {A} (cmp : A -> A -> Z) (l : list A) :
  Permutation (sortBy cmp l) l.
Proof.
  induction l as [|x l IH]; simpl; [reflexivity|].
  rewrite insertBy_perm. now constructor.
Qed.

Lemma insertBy_sorted (x : Conversation) (l : list Conversation) :
  StronglySorted notOlder l ->
  StronglySorted notOlder (insertBy byLastActivity x l).
Proof.
  induction 1 as [|y l Hs IH Hall]; simpl.
  - repeat constructor.
  - unfold byLastActivity at 1.
    destruct (Z.leb_spec (lastActivity y - lastActivity x) 0) as [Hle|Hgt].
    + constructor; [now constructor|].
      constructor; [unfold notOlder; lia|].
      eapply Forall_impl; [|exact Hall].
      unfold notOlder. intros z Hz. lia.
    + constructor; [exact IH|].
      rewrite insertBy_perm.
      constructor; [unfold notOlder; lia | exact Hall].
Qed.

Lemma sortBy_sorted (l : list Conversation) :
  StronglySorted notOlder (sortBy byLastActivity l).
Proof.
  induction l as [|x l IH]; simpl; [constructor | now apply insertBy_sorted].
Qed.

Lemma sorted_after {A} (R : A -> A -> Prop) (p q : list A) (a : A) :
  StronglySorted R (p ++ a :: q) -> Forall (R a) q.
Proof.
  induction p as [|z p IH]; simpl; intros H.
  - now apply StronglySorted_inv in H.
  - apply StronglySorted_inv in H. now apply IH.
Qed.

Lemma sorted_before (l : list Conversation) (a b : Conversation) :
  StronglySorted notOlder l -> In a l -> In b l ->
  (lastActivity a < lastActivity b)%Z -> before b a l.
Proof.
  intros Hs Ha Hb Hlt.
  destruct (in_split _ _ Hb) as (l1 & l2 & ->).
  apply in_app_or in Ha. destruct Ha as [Ha|[Ha|Ha]].
  - destruct (in_split _ _ Ha) as (p & q & ->).
    rewrite <- app_assoc in Hs. cbn [app] in Hs.
    apply sorted_after in Hs. rewrite Forall_forall in Hs.
    assert (Hab : notOlder a b) by (apply Hs; apply in_or_app; right; now left).
    unfold notOlder in Hab. lia.
  - subst. lia.
  - destruct (in_split _ _ Ha) as (p & q & ->). now exists l1, p, q.
Qed.

Lemma get_api_conversations_eq (w : World) :
  get_api_conversations w
  = (Normal (sortBy byLastActivity (conversations w)),
     storeStep (sortBy byLastActivity (conversations w)) 0 0 w).
Proof. reflexivity. Qed.

(** C8: the listing route answers with all the conversations of the
    store, each as often as the store has it, ordered by [lastActivity]
    from the most recent to the oldest: of two conversations with
    different [lastActivity], the more recent one comes first. *)
Theorem listConversations_sorted (w : World) :
  exists l w',
    get_api_conversations w = (Normal l, w') /\
    Permutation l (conversations w) /\
    StronglySorted notOlder l /\
    forall a b, In a (conversations w) -> In b (conversations w) ->
                (lastActivity a < lastActivity b)%Z -> before b a l.
Proof.
  exists (sortBy byLastActivity (conversations w)).
  eexists. split; [apply get_api_conversations_eq|].
  split; [apply sortBy_perm|]. split; [apply sortBy_sorted|].
  intros a b Ha Hb Hlt. apply sorted_before; auto using sortBy_sorted.
  - eapply Permutation_in; [symmetry; apply sortBy_perm | exact Ha].
  - eapply Permutation_in; [symmetry; apply sortBy_perm | exact Hb].
Qed.

Example listing_scenario :
  let A := {| conv_id := "a"; userId := Some "1"; username := "user_1";
              messages := []; status := active;
              createdAt := 1000; lastActivity := 1000 |} in
  let B := {| conv_id := "b"; userId := Some "2"; username := "user_2";
              messages := []; status := active;
              createdAt := 1500; lastActivity := 2000 |} in
  fst (get_api_conversations
         (storeStep [A; B] 0 0 (freshWorld exampleConfig)))
  = Normal [B; A].
Proof. reflexivity. Qed.

Lemma listConversations_sorted_witness :
  let A := {| conv_id := "a"; userId := Some "1"; username := "user_1";
              messages := []; status := active;
              createdAt := 1000; lastActivity := 1000 |} in
  let B := {| conv_id := "b"; userId := Some "2"; username := "user_2";
              messages := []; status := active;
              createdAt := 1500; lastActivity := 2000 |} in
  exists l w',
    get_api_conversations (storeStep [A; B] 0 0 (freshWorld exampleConfig))
    = (Normal l, w') /\ before B A l.
Proof.
  intros A B.
  destruct (listConversations_sorted
              (storeStep [A; B] 0 0 (freshWorld exampleConfig)))
    as (l & w' & Heq & _ & _ & H).
  exists l, w'. split; [exact Heq|].
  apply H; simpl; [now left | right; now left | reflexivity].
Defined.

(* ------------------------------------------------------------------ *)
(** *** Appending *)

Lemma lookupUser_None (u : string) (cs : list Conversation) :
  lookupUser u cs = None -> findWithIndex (hasUserId (Some u)) cs = None.
Proof.
  rewrite lookupUser_findWithIndex.
  now destruct (findWithIndex (hasUserId (Some u)) cs) as [[i c]|].
Qed.

Lemma hasUserId_true (u : string) (c : Conversation) :
  hasUserId (Some u) c = true -> userId c = Some u.
Proof. unfold hasUserId. apply strictEq_true. Qed.

Lemma lookupUser_middle (u : string) (l1 l2 : list Conversation)
    (c : Conversation) :
  Forall (fun y => hasUserId (Some u) y = false) l1 -> userId c = Some u ->
  lookupUser u (l1 ++ c :: l2) = Some c.
Proof.
  intros Hall Hc. unfold lookupUser.
  induction Hall as [|y l1 Hy _ IH]; cbn [app find].
  - unfold hasUserId. now rewrite Hc, strictEq_refl.
  - now rewrite Hy.
Qed.

(** Whatever an append does, it touches only the store and the two
    counters. *)
Lemma addMessage_frame (E : Env) (w : World) (uid name : option string)
    (txt : string) (s : Sender) :
  exists cs dc du,
    snd (addMessageToConversation E uid name txt s w) = storeStep cs dc du w.
Proof.
  destruct (findWithIndex (hasUserId uid) (conversations w))
    as [[i c0]|] eqn:F.
  - rewrite (addMessage_existing E w uid name txt s i c0 F).
    now eexists _, _, _.
  - destruct uid as [u|].
    + rewrite (addMessage_created E w u name txt s F). now eexists _, _, _.
    + destruct (truthy name) eqn:Hn.
      * apply truthy_Some in Hn. destruct Hn as (n & -> & Hn).
        rewrite (addMessage_created_unidentified E w n txt s F Hn).
        now eexists _, _, _.
      * rewrite (addMessage_undefined E w name txt s F Hn).
        now eexists _, _, _.
Qed.

(** One append, from any store. *)
Lemma appendMessage_step (E : Env) (w : World) (u : string)
    (name : option string) (txt : string) (s : Sender) :
  exists c w' m k,
    addMessageToConversation E (Some u) name txt s w = (Normal c, w') /\
    text m = txt /\ sender m = s /\ timestamp m = now E k /\
    lastActivity c = now E (S k) /\
    userId c = Some u /\
    match lookupUser u (conversations w) with
    | Some c0 =>
        messages c = (messages c0 ++ [m])%list /\
        conv_id c = conv_id c0 /\ username c = username c0 /\
        createdAt c = createdAt c0 /\
        exists l1 l2, conversations w = (l1 ++ c0 :: l2)%list /\
                      conversations w' = (l1 ++ c :: l2)%list
    | None =>
        messages c = [m] /\
        conversations w' = (conversations w ++ [c])%list
    end /\
    lookupUser u (conversations w') = Some c /\
    (uniqueUsers w -> uniqueUsers w').
Proof.
  rewrite lookupUser_findWithIndex.
  destruct (findWithIndex (hasUserId (Some u)) (conversations w))
    as [[i c0]|] eqn:F.
  - pose proof (addMessage_existing E w (Some u) name txt s i c0 F) as Heq.
    cbv zeta in Heq.
    destruct (findWithIndex_Some _ _ _ _ F) as (l1 & l2 & Hl & Hi & Hp & Hall).
    apply hasUserId_true in Hp.
    eexists _, _, _, (clockReads w). split; [exact Heq|].
    cbn. repeat split; auto.
    + exists l1, l2. split; [exact Hl|].
      rewrite Hl, <- Hi. apply setAt_middle.
    + rewrite Hl, <- Hi, setAt_middle. now apply lookupUser_middle.
    + unfold uniqueUsers. cbn. rewrite Hl, <- Hi, setAt_middle.
      now apply uniqueUsers_existing.
  - pose proof (addMessage_created E w u name txt s F) as Heq.
    cbv zeta in Heq.
    eexists _, _, _, (2 + clockReads w). split; [exact Heq|].
    cbn. repeat split; auto.
    + apply lookupUser_middle; [now apply findWithIndex_None | reflexivity].
    + unfold uniqueUsers. cbn. apply uniqueUsers_created.
      now apply findWithIndex_None.
Qed.

Lemma runOp_unique (E : Env) (op : StoreOp) (w : World) :
  uniqueUsers w ->
  exists w', runOp E op w = (Normal tt, w') /\ uniqueUsers w'.
Proof.
  intros Hu. destruct op as [u name txt s|]; unfold runOp, bind.
  - destruct (appendMessage_step E w u name txt s)
      as (c & w' & m & k & -> & _ & _ & _ & _ & _ & _ & _ & H).
    exists w'. split; [reflexivity | now apply H].
  - rewrite get_api_conversations_eq. eexists. split; [reflexivity|].
    unfold uniqueUsers in *. cbn.
    eapply Permutation_NoDup; [|exact Hu].
    apply Permutation_map. symmetry. apply sortBy_perm.
Qed.

Lemma runOps_unique (E : Env) (ops : list StoreOp) (w : World) :
  uniqueUsers w ->
  exists w', runOps E ops w = (Normal tt, w') /\ uniqueUsers w'.
Proof.
  revert w; induction ops as [|op ops IH]; intros w Hu.
  - exists w. now split.
  - destruct (runOp_unique E op w Hu) as (w1 & H1 & Hu1).
    destruct (IH w1 Hu1) as (w2 & H2 & Hu2).
    exists w2. split; [|exact Hu2].
    cbn [runOps]. unfold bind. now rewrite H1.
Qed.

(** The claim of C4 has [lastActivity] equal to the timestamp of the
    appended message.  The two are separate readings of the clock: when
    it advances between them, they differ. *)
Lemma lastActivity_is_a_later_reading :
  ~ (forall E uid name txt s w c w',
       addMessageToConversation E uid name txt s w = (Normal c, w') ->
       lastActivity c = last (map timestamp (messages c)) 0%Z).
Proof.
  intros H.
  pose proof (addMessage_created oneTickEnv (freshWorld exampleConfig)
                "1000000001" None "Hi, I need help" user eq_refl) as Heq.
  cbv zeta in Heq. apply H in Heq. vm_compute in Heq. discriminate Heq.
Qed.

(** One append, from any store, with the readings of the clock it makes:
    two when the conversation is there, four when it is created, the
    timestamp and [lastActivity] being the last two of them. *)
Lemma appendMessage_step_clock (E : Env) (w : World) (u : string)
    (name : option string) (txt : string) (s : Sender) :
  exists c w' m k,
    addMessageToConversation E (Some u) name txt s w = (Normal c, w') /\
    text m = txt /\ sender m = s /\ timestamp m = now E k /\
    lastActivity c = now E (S k) /\
    clockReads w' = S (S k) /\
    userId c = Some u /\
    match lookupUser u (conversations w) with
    | Some c0 =>
        k = clockReads w /\
        messages c = (messages c0 ++ [m])%list /\
        conv_id c = conv_id c0 /\ username c = username c0 /\
        createdAt c = createdAt c0 /\
        exists l1 l2, conversations w = (l1 ++ c0 :: l2)%list /\
                      conversations w' = (l1 ++ c :: l2)%list
    | None =>
        k = 2 + clockReads w /\
        createdAt c = now E (clockReads w) /\
        messages c = [m] /\
        conversations w' = (conversations w ++ [c])%list
    end /\
    lookupUser u (conversations w') = Some c /\
    (uniqueUsers w -> uniqueUsers w').
Proof.
  rewrite lookupUser_findWithIndex.
  destruct (findWithIndex (hasUserId (Some u)) (conversations w))
    as [[i c0]|] eqn:F.
  - pose proof (addMessage_existing E w (Some u) name txt s i c0 F) as Heq.
    cbv zeta in Heq.
    destruct (findWithIndex_Some _ _ _ _ F) as (l1 & l2 & Hl & Hi & Hp & Hall).
    apply hasUserId_true in Hp.
    eexists _, _, _, (clockReads w). split; [exact Heq|].
    cbn. repeat split; auto.
    + exists l1, l2. split; [exact Hl|].
      rewrite Hl, <- Hi. apply setAt_middle.
    + rewrite Hl, <- Hi, setAt_middle. now apply lookupUser_middle.
    + unfold uniqueUsers. cbn. rewrite Hl, <- Hi, setAt_middle.
      now apply uniqueUsers_existing.
  - pose proof (addMessage_created E w u name txt s F) as Heq.
    cbv zeta in Heq.
    eexists _, _, _, (2 + clockReads w). split; [exact Heq|].
    cbn. repeat split; auto.
    + apply lookupUser_middle; [now apply findWithIndex_None | reflexivity].
    + unfold uniqueUsers. cbn. apply uniqueUsers_created.
      now apply findWithIndex_None.
Qed.

(** C4, amended: in every store reached from the empty one by appends
    and listings, no two conversations have the same [userId], and an
    append for [u] returns: it takes the conversation of [u] or, when
    there is none, adds a new one at the end, created at the current
    time (the first reading of the clock that the call makes); it
    appends exactly one message, with the given text and sender and the
    current time as its timestamp (the first reading of the clock that
    the call makes when the conversation is there, the third when it is
    created); it sets [lastActivity] to the reading of the clock that
    follows the timestamp's, which is the last the call makes (equal to
    the timestamp when the clock has not advanced in between); it leaves
    the other conversations as they were; it returns the updated
    conversation, which is the one now in the store; and the store still
    has no two conversations with the same [userId].  ([k] counts the
    readings of the clock made since the process started, and
    [clockReads] is that count in a state.) *)
Theorem appendMessage_spec (E : Env) (w0 : World) (ops : list StoreOp)
    (u : string) (name : option string) (txt : string) (s : Sender) :
  conversations w0 = [] ->
  exists w,
    runOps E ops w0 = (Normal tt, w) /\ uniqueUsers w /\
    exists c w' m k,
      addMessageToConversation E (Some u) name txt s w = (Normal c, w') /\
      text m = txt /\ sender m = s /\ timestamp m = now E k /\
      lastActivity c = now E (S k) /\
      (now E (S k) = now E k -> lastActivity c = timestamp m) /\
      clockReads w <= k /\ clockReads w' = S (S k) /\
      userId c = Some u /\
      match lookupUser u (conversations w) with
      | Some c0 =>
          k = clockReads w /\
          messages c = (messages c0 ++ [m])%list /\
          conv_id c = conv_id c0 /\ username c = username c0 /\
          createdAt c = createdAt c0 /\
          exists l1 l2, conversations w = (l1 ++ c0 :: l2)%list /\
                        conversations w' = (l1 ++ c :: l2)%list
      | None =>
          k = 2 + clockReads w /\
          createdAt c = now E (clockReads w) /\
          messages c = [m] /\
          conversations w' = (conversations w ++ [c])%list
      end /\
      lookupUser u (conversations w') = Some c /\
      uniqueUsers w'.
Proof.
  intros H0.
  assert (Hu0 : uniqueUsers w0) by (unfold uniqueUsers; rewrite H0; constructor).
  destruct (runOps_unique E ops w0 Hu0) as (w & Hrun & Hu).
  exists w. split; [exact Hrun|]. split; [exact Hu|].
  destruct (appendMessage_step_clock E w u name txt s)
    as (c & w' & m & k & Heq & Ht & Hs & Hts & Hla & Hck & Hid & Hcase & Hlk
        & Huu).
  exists c, w', m, k. repeat (split; [assumption|]).
  split; [intros Hk; now rewrite Hla, Hts|].
  split.
  { destruct (lookupUser u (conversations w));
      destruct Hcase as (Hk & _); rewrite Hk; lia. }
  repeat (split; [assumption|]). now apply Huu.
Qed.

Lemma appendMessage_spec_witness :
  exists w,
    runOps tickingEnv
      [OpAppend "1000000001" None "Hi, I need help" user; OpList]
      (freshWorld exampleConfig) = (Normal tt, w) /\
    uniqueUsers w /\
    exists c w' m k,
      addMessageToConversation tickingEnv (Some "1000000001") None
        "Here you go" bot w = (Normal c, w') /\
      timestamp m = now tickingEnv k /\
      lastActivity c = now tickingEnv (S k) /\
      clockReads w <= k /\ clockReads w' = S (S k) /\
      userId c = Some "1000000001" /\
      lookupUser "1000000001" (conversations w') = Some c /\
      uniqueUsers w'.
Proof.
  destruct (appendMessage_spec tickingEnv (freshWorld exampleConfig)
              [OpAppend "1000000001" None "Hi, I need help" user; OpList]
              "1000000001" None "Here you go" bot eq_refl)
    as (w & Hrun & Hu & c & w' & m & k & Heq & _ & _ & Hts & Hla & _ & Hk
        & Hck & Hid & _ & Hlk & Hu').
  exists w. split; [exact Hrun|]. split; [exact Hu|].
  exists c, w', m, k.
  split; [exact Heq|]. split; [exact Hts|]. split; [exact Hla|].
  split; [exact Hk|]. split; [exact Hck|]. split; [exact Hid|].
  split; [exact Hlk | exact Hu'].
Defined.

Example end_to_end_store :
  let w := snd (runOps tickingEnv
                  [OpAppend "1000000001" None "Hi, I need help" user;
                   OpList;
                   OpAppend "1000000001" None "Here you go" bot]
                  (freshWorld exampleConfig)) in
  map userId (conversations w) = [Some "1000000001"] /\
  map (fun c => map text (messages c)) (conversations w)
  = [["Hi, I need help"; "Here you go"]].
Proof. vm_compute. split; reflexivity. Qed.

(** C9: a conversation created without a username gets ["user_"]
    followed by the last six characters of the user id (the whole id
    when it has fewer than six). *)
Theorem default_username (E : Env) (w : World) (u txt : string) (s : Sender) :
  lookupUser u (conversations w) = None ->
  exists c w' rest,
    addMessageToConversation E (Some u) None txt s w = (Normal c, w') /\
    conversations w' = (conversations w ++ [c])%list /\
    userId c = Some u /\
    username c = "user_" ++ sliceLast 6 u /\
    u = rest ++ sliceLast 6 u /\
    String.length (sliceLast 6 u) = Nat.min 6 (String.length u).
Proof.
  intros H. apply lookupUser_None in H.
  pose proof (addMessage_created E w u None txt s H) as Heq. cbv zeta in Heq.
  destruct (sliceLast_suffix 6 u) as [Hsplit Hlen].
  eexists _, _, (take (String.length u - 6) u). split; [exact Heq|].
  cbn. repeat split; auto.
Qed.

Lemma default_username_witness :
  exists c w',
    addMessageToConversation tickingEnv (Some "1000000001") None
      "Hi, I need help" user (freshWorld exampleConfig) = (Normal c, w') /\
    username c = "user_000001".
Proof.
  destruct (default_username tickingEnv (freshWorld exampleConfig)
              "1000000001" "Hi, I need help" user eq_refl)
    as (c & w' & rest & Heq & _ & _ & Hname & _).
  exists c, w'. split; [exact Heq | exact Hname].
Defined.

(* ================================================================== *)
(** ** POST /webhook *)
(* ================================================================== *)

Lemma truthy_text (txt : string) : txt <> "" -> truthy (Some txt) = true.
Proof. intros H. simpl. now destruct (String.eqb_spec txt ""). Qed.

Lemma removelast_snoc {A} (l : list A) (x : A) : removelast (l ++ [x]) = l.
Proof. apply removelast_last. Qed.

(** Run a handler on an event that has a message, up to the call of
    [addMessageToConversation]. *)
Ltac enter_event :=
  cbn [firstMessaging textEvent messaging ev_message ev_sender msg_text id];
  unfold bind at 1; cbn [ret]; unfold bind at 1.

Ltac enter_text_event Htxt :=
  cbn [firstMessaging messaging ev_message ev_sender msg_text id];
  rewrite (truthy_text _ Htxt); enter_event.

(** An entry whose first event has a sender id and a text, in
    [src/index.js]: the message is stored, the prompt is posted, and with
    a reply the delivery is scheduled; without one the handler throws. *)
Lemma Index_handleEntry_message (E : Env) (w : World) (u txt : string)
    (rest : list MessagingEvent) :
  txt <> "" ->
  exists c w1,
    addMessageToConversation E (Some u) None txt user w = (Normal c, w1) /\
    configuration w1 = configuration w /\ llmCalls w1 = llmCalls w /\
    timers w1 = timers w /\
    Index.handleEntry E
      {| messaging :=
           Some ({| ev_sender := Some {| id := Some u |};
                    ev_message := Some {| msg_text := Some txt |} |} :: rest) |}
      w
    = let p := buildMessages (configuration w) txt
                 (sliceButLast (messages c)) in
      match chatCompletion E (List.length (llmCalls w)) p with
      | Some reply =>
          (Normal tt,
           snd (setTimeout (Some u)
                  (replace BOOKING_URL (calendlyUrl (configuration w)) reply)
                  (snd (pushLlmCall p w1))))
      | None => (Throw RequestError, snd (pushLlmCall p w1))
      end.
Proof.
  intros Htxt.
  destruct (appendMessage_step E w u None txt user)
    as (c & w1 & m & k & Heq & _).
  destruct (addMessage_frame E w (Some u) None txt user) as (cs & dc & du & Hf).
  rewrite Heq in Hf. cbn [snd] in Hf.
  exists c, w1. split; [exact Heq|].
  subst w1. repeat (split; [reflexivity|]).
  unfold Index.handleEntry. enter_text_event Htxt. rewrite Heq.
  unfold Index.sendMessageToLLM, Index.sendMessageToOpenAI, bind,
    getConfiguration, pushLlmCall, setTimeout, ret, throw.
  cbn. destruct (chatCompletion E _ _); reflexivity.
Qed.

(** The same entry in [src/unnamed/part_000], up to the await. *)
Lemma Part000_callbackStart_message (E : Env) (w : World) (u txt : string)
    (rest : list MessagingEvent) :
  txt <> "" ->
  exists c w1,
    addMessageToConversation E (Some u) None txt user w = (Normal c, w1) /\
    configuration w1 = configuration w /\ llmCalls w1 = llmCalls w /\
    Part000.callbackStart E
      {| messaging :=
           Some ({| ev_sender := Some {| id := Some u |};
                    ev_message := Some {| msg_text := Some txt |} |} :: rest) |}
      w
    = let p := buildMessages (configuration w) txt
                 (sliceButLast (messages c)) in
      (Normal tt,
       snd (pushAwaiting {| aw_sender := Some u;
                            aw_call := List.length (llmCalls w) |}
              (snd (pushLlmCall p w1)))).
Proof.
  intros Htxt.
  destruct (appendMessage_step E w u None txt user)
    as (c & w1 & m & k & Heq & _).
  destruct (addMessage_frame E w (Some u) None txt user) as (cs & dc & du & Hf).
  rewrite Heq in Hf. cbn [snd] in Hf.
  exists c, w1. split; [exact Heq|].
  subst w1. repeat (split; [reflexivity|]).
  unfold Part000.callbackStart. enter_text_event Htxt.
  rewrite Heq. reflexivity.
Qed.

(** A prompt is posted only for an entry whose first event has a sender
    id and a text. *)
Lemma Index_handleEntry_posts_only_for_text (E : Env) (e : Entry) (w : World) :
  allIdentified w ->
  llmCalls (snd (Index.handleEntry E e w)) <> llmCalls w ->
  exists u txt rest,
    txt <> "" /\
    e = {| messaging :=
             Some ({| ev_sender := Some {| id := Some u |};
                      ev_message := Some {| msg_text := Some txt |} |}
                   :: rest) |}.
Proof.
  intros Hw.
  destruct e as [[[|[sd [[txt]|]] rest]|]];
    try (intros H; now contradiction H).
  destruct sd as [[uid]|]; [|intros H; now contradiction H].
  destruct txt as [txt|]; [|intros H; now contradiction H].
  destruct (String.eqb_spec txt "") as [->|Htxt];
    [intros H; now contradiction H|].
  destruct uid as [u|].
  - intros _. now exists u, txt, rest.
  - intros H. exfalso. apply H.
    unfold Index.handleEntry. enter_text_event Htxt.
    rewrite addMessage_undefined by (auto using allIdentified_find).
    reflexivity.
Qed.

(** C5: for an event with a sender id and a text, the prompt posted to
    the chat-completion endpoint is the system instruction of the
    configuration, then the messages that the sender's conversation held
    before this event, in order, as [user] turns for sender [user] and as
    [assistant] turns for sender [bot], then the text of the event as a
    last [user] turn.  That history is the message list of the updated
    conversation without its last message, which is the one just
    appended.  Both files post the same prompt. *)
Theorem prompt_sequence (E : Env) (w : World) (u txt : string)
    (rest : list MessagingEvent) :
  txt <> "" ->
  let e := {| messaging :=
                Some ({| ev_sender := Some {| id := Some u |};
                         ev_message := Some {| msg_text := Some txt |} |}
                      :: rest) |} in
  let history :=
    match lookupUser u (conversations w) with
    | Some c0 => messages c0
    | None => []
    end in
  let p :=
    ({| role := system; content := prompt (configuration w) |}
     :: map (fun m =>
               {| role := match sender m with
                          | user => roleUser
                          | bot => assistant
                          end;
                  content := text m |}) history
     ++ [ {| role := roleUser; content := txt |} ])%list in
  llmCalls (snd (Index.handleEntry E e w)) = (llmCalls w ++ [p])%list /\
  llmCalls (snd (Part000.callbackStart E e w)) = (llmCalls w ++ [p])%list /\
  exists c m,
    lookupUser u (conversations (snd (Index.handleEntry E e w))) = Some c /\
    lookupUser u (conversations (snd (Part000.callbackStart E e w))) = Some c /\
    messages c = (history ++ [m])%list /\
    text m = txt /\ sender m = user.
Proof.
  intros Htxt e history p.
  destruct (appendMessage_step E w u None txt user)
    as (c & w1 & m & k & Heq & Htm & Hsm & _ & _ & _ & Hcase & Hlk & _).
  assert (Hmsgs : messages c = (history ++ [m])%list).
  { subst history. destruct (lookupUser u (conversations w)).
    - now destruct Hcase as (-> & _).
    - now destruct Hcase as (-> & _). }
  assert (Hp : buildMessages (configuration w) txt
                 (sliceButLast (messages c)) = p).
  { unfold sliceButLast. rewrite Hmsgs, removelast_snoc. reflexivity. }
  destruct (Index_handleEntry_message E w u txt rest Htxt)
    as (c1 & w1' & Heq1 & Hcfg1 & Hl1 & _ & HI).
  destruct (Part000_callbackStart_message E w u txt rest Htxt)
    as (c2 & w2' & Heq2 & Hcfg2 & Hl2 & HP).
  rewrite Heq in Heq1, Heq2.
  injection Heq1 as <- <-. injection Heq2 as <- <-.
  cbv zeta in HI, HP. rewrite Hp in HI, HP.
  fold e in HI, HP. rewrite HI, HP.
  split; [|split].
  - destruct (chatCompletion E _ p); cbn; now rewrite Hl1.
  - cbn. now rewrite Hl1.
  - exists c, m.
    split; [destruct (chatCompletion E _ p); cbn; exact Hlk|].
    split; [cbn; exact Hlk|]. auto.
Qed.

Lemma prompt_sequence_witness :
  llmCalls (snd (Index.handleEntry tickingEnv
                   (textEvent (Some {| id := Some "1000000001" |})
                              (Some "Hi, I need help"))
                   (freshWorld exampleConfig)))
  = [[ {| role := system; content := prompt exampleConfig |};
       {| role := roleUser; content := "Hi, I need help" |} ]].
Proof.
  destruct (prompt_sequence tickingEnv (freshWorld exampleConfig)
              "1000000001" "Hi, I need help" [] ltac:(discriminate))
    as (H & _).
  exact H.
Defined.

Example second_turn_prompt :
  let e1 := textEvent (Some {| id := Some "1000000001" |})
                      (Some "Hi, I need help") in
  let e2 := textEvent (Some {| id := Some "1000000001" |}) (Some "Thanks") in
  let w1 := snd (Index.handleEntry tickingEnv e1 (freshWorld exampleConfig)) in
  let w2 := snd (timerCallback tickingEnv (Some "1000000001")
                   "Book here: https://cal.example/me" w1) in
  timers w1 = [(Some "1000000001", "Book here: https://cal.example/me")] /\
  nth_error (llmCalls (snd (Index.handleEntry tickingEnv e2 w2))) 1
  = Some [ {| role := system; content := prompt exampleConfig |};
           {| role := roleUser; content := "Hi, I need help" |};
           {| role := assistant;
              content := "Book here: https://cal.example/me" |};
           {| role := roleUser; content := "Thanks" |} ].
Proof. split; reflexivity. Qed.

(* ------------------------------------------------------------------ *)
(** *** Events without a text or without a sender *)

(** No first event, no message, or a message without text (or with an
    empty one) from a known sender object: the entry is passed over. *)
Lemma Index_handleEntry_skipped (E : Env) (e : Entry) (w : World) :
  firstMessaging e = None \/
  (exists ev, firstMessaging e = Some ev /\ ev_message ev = None) \/
  (exists ev s m, firstMessaging e = Some ev /\ ev_sender ev = Some s /\
                  ev_message ev = Some m /\ truthy (msg_text m) = false) ->
  Index.handleEntry E e w = (Normal tt, w).
Proof.
  unfold Index.handleEntry.
  intros [-> | [(ev & -> & ->) | (ev & s & m & -> & Hs & -> & Ht)]];
    try reflexivity.
  rewrite Hs. unfold bind, ret. rewrite Ht. now destruct (msg_text m).
Qed.

Lemma Part000_callbackStart_skipped (E : Env) (e : Entry) (w : World) :
  firstMessaging e = None \/
  (exists ev, firstMessaging e = Some ev /\ ev_message ev = None) \/
  (exists ev s m, firstMessaging e = Some ev /\ ev_sender ev = Some s /\
                  ev_message ev = Some m /\ truthy (msg_text m) = false) ->
  Part000.callbackStart E e w = (Normal tt, w).
Proof.
  unfold Part000.callbackStart.
  intros [-> | [(ev & -> & ->) | (ev & s & m & -> & Hs & -> & Ht)]];
    try reflexivity.
  rewrite Hs. unfold bind, ret. rewrite Ht. now destruct (msg_text m).
Qed.

(** A message without a sender object: reading [sender.id] throws, also
    when the message has no text. *)
Lemma Index_handleEntry_no_sender (E : Env) (w : World)
    (txt : option string) (rest : list MessagingEvent) :
  Index.handleEntry E
    {| messaging := Some ({| ev_sender := None;
                             ev_message := Some {| msg_text := txt |} |}
                          :: rest) |} w
  = (Throw TypeError, w).
Proof. reflexivity. Qed.

(** C7, at an event with a text and no sender (and at one whose sender
    has no id): the event is not passed over in silence.  In
    [src/index.js] the exception reaches the handler's [catch]: the
    answer to the platform is 500, and an entry that follows in the same
    payload, here a well-formed one, is not processed.  In
    [src/unnamed/part_000] the exception rejects the callback's promise,
    which nothing handles.  (No conversation is created and no prompt or
    delivery goes out, as the claim says.) *)
Theorem missing_sender_is_an_error (E : Env) (w : World)
    (sig : option string) :
  allIdentified w ->
  let noSender := textEvent None (Some "Hi, I need help") in
  let noId := textEvent (Some {| id := None |}) (Some "Hi, I need help") in
  let good := textEvent (Some {| id := Some "1000000001" |}) (Some "Hello") in
  Index.post_webhook E
    {| x_hub_signature_256 := sig; body := instagramBody [noSender; good] |} w
  = (Normal {| code := 500; sent := Some "Internal server error" |}, w)
  /\ Index.post_webhook E
       {| x_hub_signature_256 := sig; body := instagramBody [noId; good] |} w
     = (Normal {| code := 500; sent := Some "Internal server error" |},
        storeStep (conversations w) 0 1 w)
  /\ rejections (snd (Part000.forEach E [noSender] w))
     = (rejections w ++ [TypeError])%list
  /\ rejections (snd (Part000.forEach E [noId] w))
     = (rejections w ++ [TypeError])%list.
Proof.
  intros Hw. cbv zeta. apply allIdentified_find in Hw.
  split; [reflexivity|]. split; [|split; [reflexivity|]].
  - unfold Index.post_webhook, tryCatch, bind. cbn [body object instagramBody
      strictEq String.eqb Ascii.eqb Bool.eqb entry Index.forOf].
    unfold bind, Index.handleEntry. cbn [truthy String.eqb negb textEvent
      firstMessaging messaging ev_message ev_sender msg_text id].
    enter_event. rewrite addMessage_undefined by auto. reflexivity.
  - cbn [Part000.forEach]. unfold bind, tryCatch, Part000.callbackStart.
    cbn [truthy String.eqb negb textEvent
      firstMessaging messaging ev_message ev_sender msg_text id].
    enter_event. rewrite addMessage_undefined by auto. reflexivity.
Qed.

Lemma missing_sender_is_an_error_witness :
  Index.post_webhook tickingEnv
    {| x_hub_signature_256 := None;
       body := instagramBody
                 [textEvent None (Some "Hi, I need help");
                  textEvent (Some {| id := Some "1000000001" |})
                            (Some "Hello")] |}
    (freshWorld exampleConfig)
  = (Normal {| code := 500; sent := Some "Internal server error" |},
     freshWorld exampleConfig).
Proof.
  destruct (missing_sender_is_an_error tickingEnv (freshWorld exampleConfig)
              None ltac:(constructor)) as (H & _).
  exact H.
Defined.

(* ------------------------------------------------------------------ *)
(** *** Signature enforcement *)

Lemma Part000_forEach_normal (E : Env) (l : list Entry) (w : World) :
  fst (Part000.forEach E l w) = Normal tt.
Proof.
  revert w; induction l as [|e l IH]; intros w; [reflexivity|].
  cbn [Part000.forEach]. unfold bind, tryCatch, pushRejection.
  destruct (Part000.callbackStart E e w) as [[[]|err] w1]; apply IH.
Qed.



(* ------------------------------------------------------------------ *)
(** *** Every stored conversation has a user id *)

Lemma addMessage_allIdentified (E : Env) (w : World) (uid : option string)
    (txt : string) (s : Sender) :
  allIdentified w ->
  allIdentified (snd (addMessageToConversation E uid None txt s w)).
Proof.
  intros Hw.
  destruct (findWithIndex (hasUserId uid) (conversations w))
    as [[i c0]|] eqn:F.
  - rewrite (addMessage_existing E w uid None txt s i c0 F).
    destruct (findWithIndex_Some _ _ _ _ F) as (l1 & l2 & Hl & Hi & _ & _).
    unfold allIdentified in *. cbn. rewrite Hl in *. rewrite <- Hi.
    rewrite setAt_middle. rewrite Forall_app in *.
    destruct Hw as [H1 H2]. split; [exact H1|].
    inversion H2; subst. now constructor.
  - destruct uid as [u|].
    + rewrite (addMessage_created E w u None txt s F).
      unfold allIdentified in *. cbn. rewrite Forall_app. split; [exact Hw|].
      constructor; [discriminate | constructor].
    + rewrite (addMessage_undefined E w None txt s F eq_refl). exact Hw.
Qed.

Lemma Index_handleEntry_store (E : Env) (e : Entry) (w : World) :
  conversations (snd (Index.handleEntry E e w)) = conversations w \/
  exists uid txt,
    conversations (snd (Index.handleEntry E e w))
    = conversations (snd (addMessageToConversation E uid None txt user w)).
Proof.
  destruct e as [[[|[sd [[txt]|]] rest]|]]; try (now left).
  destruct sd as [[uid]|]; [|now left].
  destruct txt as [txt|]; [|now left].
  destruct (String.eqb_spec txt "") as [->|Htxt]; [now left|].
  right. exists uid, txt.
  unfold Index.handleEntry. enter_text_event Htxt.
  destruct (addMessage_frame E w uid None txt user) as (cs & dc & du & Hf).
  destruct (addMessageToConversation E uid None txt user w) as [[c|err] w1];
    [|reflexivity].
  cbn [snd] in Hf. subst w1.
  unfold Index.sendMessageToLLM, Index.sendMessageToOpenAI, bind,
    getConfiguration, pushLlmCall, setTimeout, ret, throw.
  cbn. destruct (chatCompletion E _ _); reflexivity.
Qed.

Lemma Index_forOf_allIdentified (E : Env) (l : list Entry) (w : World) :
  allIdentified w -> allIdentified (snd (Index.forOf E l w)).
Proof.
  revert w; induction l as [|e l IH]; intros w Hw; [exact Hw|].
  cbn [Index.forOf]. unfold bind.
  assert (H1 : allIdentified (snd (Index.handleEntry E e w))).
  { unfold allIdentified.
    destruct (Index_handleEntry_store E e w) as [->|(uid & txt & ->)];
      [exact Hw | now apply addMessage_allIdentified]. }
  destruct (Index.handleEntry E e w) as [[[]|err] w1]; cbn [snd] in *;
    [now apply IH | exact H1].
Qed.

(** The handler of [src/index.js] keeps every conversation identified. *)
Lemma Index_post_webhook_allIdentified (E : Env) (req : Request) (w : World) :
  allIdentified w -> allIdentified (snd (Index.post_webhook E req w)).
Proof.
  intros Hw. unfold Index.post_webhook, tryCatch, bind.
  destruct (strictEq (object (body req)) (Some "instagram")); [|exact Hw].
  pose proof (Index_forOf_allIdentified E
                (match entry (body req) with Some l => l | None => [] end)
                w Hw) as H.
  destruct (Index.forOf E _ w) as [[[]|err] w1]; exact H.
Qed.

(* ================================================================== *)
(** ** More on the conversation store *)
(* ================================================================== *)

Lemma lookupUser_skip (v : string) (l1 l2 : list Conversation)
    (x : Conversation) :
  hasUserId (Some v) x = false ->
  lookupUser v (l1 ++ x :: l2) = lookupUser v (l1 ++ l2).
Proof.
  intros Hx. unfold lookupUser.
  induction l1 as [|y l1 IH]; cbn [app find].
  - now rewrite Hx.
  - now rewrite IH.
Qed.

Lemma hasUserId_other (u v : string) (c : Conversation) :
  v <> u -> userId c = Some u -> hasUserId (Some v) c = false.
Proof.
  intros Hne Hc. unfold hasUserId. rewrite Hc. simpl.
  apply String.eqb_neq. congruence.
Qed.

(** An append for [u] changes nothing of what the store holds for
    another user. *)
Lemma append_other_lookup (E : Env) (w : World) (u v : string)
    (name : option string) (txt : string) (s : Sender) :
  v <> u ->
  lookupUser v
    (conversations (snd (addMessageToConversation E (Some u) name txt s w)))
  = lookupUser v (conversations w).
Proof.
  intros Hne.
  destruct (appendMessage_step E w u name txt s)
    as (c & w' & m & k & Heq & _ & _ & _ & _ & Hid & Hcase & _).
  rewrite Heq. cbn [snd].
  pose proof (hasUserId_other u v c Hne Hid) as Hc.
  rewrite lookupUser_findWithIndex in Hcase.
  destruct (findWithIndex (hasUserId (Some u)) (conversations w))
    as [[i c0]|] eqn:F; cbn [option_map snd] in Hcase.
  - destruct Hcase as (_ & _ & _ & _ & l1 & l2 & Hw & Hw').
    rewrite Hw, Hw'.
    destruct (findWithIndex_Some _ _ _ _ F) as (_ & _ & _ & _ & Hp & _).
    apply hasUserId_true in Hp.
    rewrite (lookupUser_skip v l1 l2 c Hc).
    now rewrite (lookupUser_skip v l1 l2 c0 (hasUserId_other u v c0 Hne Hp)).
  - destruct Hcase as (_ & ->).
    rewrite lookupUser_skip by exact Hc. now rewrite app_nil_r.
Qed.

(** X1: appending a message for one user leaves every other user's
    conversation exactly as it was: what a lookup by another user id
    finds is the same conversation as before. *)
Theorem append_leaves_other_users (E : Env) (w : World) (u v : string)
    (name : option string) (txt : string) (s : Sender) :
  v <> u ->
  exists c w',
    addMessageToConversation E (Some u) name txt s w = (Normal c, w') /\
    lookupUser v (conversations w') = lookupUser v (conversations w).
Proof.
  intros Hne.
  pose proof (append_other_lookup E w u v name txt s Hne) as H.
  destruct (appendMessage_step E w u name txt s)
    as (c & w' & m & k & Heq & _).
  rewrite Heq in H. now exists c, w'.
Qed.

Lemma append_leaves_other_users_witness :
  exists c w',
    addMessageToConversation tickingEnv (Some "1000000002") None "Hello" user
      (snd (addMessageToConversation tickingEnv (Some "1000000001") None
              "Hi, I need help" user (freshWorld exampleConfig)))
    = (Normal c, w') /\
    lookupUser "1000000001" (conversations w')
    = lookupUser "1000000001"
        (conversations
           (snd (addMessageToConversation tickingEnv (Some "1000000001") None
                   "Hi, I need help" user (freshWorld exampleConfig)))).
Proof.
  apply (append_leaves_other_users tickingEnv _ "1000000002" "1000000001").
  discriminate.
Defined.

Lemma NoDup_map_inj {A B} (f : A -> B) (l : list A) (a b : A) :
  NoDup (map f l) -> In a l -> In b l -> f a = f b -> a = b.
Proof.
  induction l as [|x l IH]; intros Hnd Ha Hb Hf; [contradiction|].
  cbn [map] in Hnd. inversion Hnd as [|? ? Hx Hnd']; subst.
  destruct Ha as [->|Ha], Hb as [->|Hb]; auto.
  - exfalso. apply Hx. rewrite Hf. now apply in_map.
  - exfalso. apply Hx. rewrite <- Hf. now apply in_map.
Qed.

Lemma lookupUser_perm (u : string) (l l' : list Conversation) :
  Permutation l l' -> NoDup (map userId l) ->
  lookupUser u l = lookupUser u l'.
Proof.
  unfold lookupUser.
  induction 1 as [|x l l' Hp IH|x y l|l l' l'' Hp1 IH1 Hp2 IH2]; intros Hnd.
  - reflexivity.
  - cbn [find]. destruct (hasUserId (Some u) x); [reflexivity|].
    apply IH. cbn [map] in Hnd. now inversion Hnd.
  - cbn [find].
    destruct (hasUserId (Some u) x) eqn:Hx, (hasUserId (Some u) y) eqn:Hy;
      try reflexivity.
    apply hasUserId_true in Hx, Hy. cbn [map] in Hnd.
    inversion Hnd as [|? ? Hin _]; subst. exfalso. apply Hin.
    left. congruence.
  - rewrite IH1 by exact Hnd. apply IH2.
    eapply Permutation_NoDup; [|exact Hnd]. now apply Permutation_map.
Qed.

(** X2: the listing route sorts the store in place, and with one
    conversation per user id this changes nothing for later appends: a
    lookup by user id finds the same conversation before and after a
    listing. *)
Theorem listing_keeps_lookup (w : World) (u : string) :
  uniqueUsers w ->
  lookupUser u (conversations (snd (get_api_conversations w)))
  = lookupUser u (conversations w).
Proof.
  intros Hu. rewrite get_api_conversations_eq. cbn.
  symmetry. apply lookupUser_perm; [|exact Hu].
  symmetry. apply sortBy_perm.
Qed.

Lemma listing_keeps_lookup_witness :
  let A := {| conv_id := "a"; userId := Some "1"; username := "user_1";
              messages := []; status := active;
              createdAt := 1000; lastActivity := 1000 |} in
  let B := {| conv_id := "b"; userId := Some "2"; username := "user_2";
              messages := []; status := active;
              createdAt := 1500; lastActivity := 2000 |} in
  let w := storeStep [A; B] 0 0 (freshWorld exampleConfig) in
  lookupUser "1" (conversations (snd (get_api_conversations w)))
  = lookupUser "1" (conversations w).
Proof.
  intros A B w. apply (listing_keeps_lookup w "1").
  unfold uniqueUsers. cbn.
  constructor; [|constructor; [|constructor]]; cbn; intuition discriminate.
Defined.

Lemma sortBy_sorted_fix (l : list Conversation) :
  StronglySorted notOlder l -> sortBy byLastActivity l = l.
Proof.
  induction 1 as [|x l Hs IH Hall]; [reflexivity|].
  cbn [sortBy]. rewrite IH. destruct l as [|y l']; [reflexivity|].
  cbn [insertBy]. inversion Hall as [|? ? Hxy _]; subst.
  unfold notOlder in Hxy. unfold byLastActivity.
  destruct (Z.leb_spec (lastActivity y - lastActivity x) 0);
    [reflexivity | lia].
Qed.

(** X3: listing twice is listing once: the second call returns the same
    sequence as the first and leaves the state as the first left it. *)
Theorem listing_idempotent (w : World) :
  get_api_conversations (snd (get_api_conversations w))
  = get_api_conversations w.
Proof.
  rewrite !get_api_conversations_eq. cbn [snd storeStep conversations].
  rewrite (sortBy_sorted_fix _ (sortBy_sorted (conversations w))).
  reflexivity.
Qed.

Lemma appendsFor_cons (u : string) (op : StoreOp) (ops : list StoreOp) :
  appendsFor u (op :: ops) = (appendsFor u [op] ++ appendsFor u ops)%list.
Proof.
  destruct op as [v name txt s|]; cbn [appendsFor]; [|reflexivity].
  now destruct (v =? u).
Qed.

(** One store operation, seen from user [u]. *)
Lemma runOp_stored (E : Env) (op : StoreOp) (w : World) (u : string) :
  uniqueUsers w ->
  exists w',
    runOp E op w = (Normal tt, w') /\ uniqueUsers w' /\
    storedFor u w' = (storedFor u w ++ appendsFor u [op])%list /\
    (lookupUser u (conversations w') = None <->
     lookupUser u (conversations w) = None /\ appendsFor u [op] = []).
Proof.
  intros Hu. destruct op as [v name txt s|]; unfold runOp, bind.
  - destruct (appendMessage_step E w v name txt s)
      as (c & w' & m & k & Heq & Htm & Hsm & _ & _ & _ & Hcase & Hlk & Huu).
    pose proof (append_other_lookup E w v u name txt s) as Hother.
    rewrite Heq in *. cbn [snd] in Hother.
    exists w'. split; [reflexivity|]. split; [now apply Huu|].
    cbn [appendsFor]. destruct (String.eqb_spec v u) as [->|Hne].
    + unfold storedFor. rewrite Hlk. split.
      * destruct (lookupUser u (conversations w)) as [c0|].
        -- destruct Hcase as (-> & _). rewrite map_app. cbn.
           now rewrite Htm, Hsm.
        -- destruct Hcase as (-> & _). cbn. now rewrite Htm, Hsm.
      * split; [discriminate | intros [_ H]; discriminate].
    + assert (Hl : lookupUser u (conversations w')
                   = lookupUser u (conversations w))
        by (apply Hother; congruence).
      unfold storedFor. rewrite Hl, app_nil_r. split; [reflexivity|].
      tauto.
  - rewrite get_api_conversations_eq.
    assert (Hl : lookupUser u (sortBy byLastActivity (conversations w))
                 = lookupUser u (conversations w)).
    { symmetry. apply lookupUser_perm; [|exact Hu].
      symmetry. apply sortBy_perm. }
    eexists. split; [reflexivity|]. split.
    + unfold uniqueUsers in *. cbn.
      eapply Permutation_NoDup; [|exact Hu].
      apply Permutation_map. symmetry. apply sortBy_perm.
    + unfold storedFor. cbn [conversations storeStep appendsFor].
      rewrite Hl, app_nil_r. split; [reflexivity | tauto].
Qed.

Lemma runOps_stored (E : Env) (ops : list StoreOp) (w : World) (u : string) :
  uniqueUsers w ->
  exists w',
    runOps E ops w = (Normal tt, w') /\ uniqueUsers w' /\
    storedFor u w' = (storedFor u w ++ appendsFor u ops)%list /\
    (lookupUser u (conversations w') = None <->
     lookupUser u (conversations w) = None /\ appendsFor u ops = []).
Proof.
  revert w; induction ops as [|op ops IH]; intros w Hu.
  - exists w. cbn. rewrite app_nil_r. repeat split; tauto.
  - destruct (runOp_stored E op w u Hu) as (w1 & H1 & Hu1 & Hs1 & Hn1).
    destruct (IH w1 Hu1) as (w2 & H2 & Hu2 & Hs2 & Hn2).
    exists w2. split; [cbn [runOps]; unfold bind; now rewrite H1|].
    split; [exact Hu2|]. rewrite (appendsFor_cons u op ops). split.
    + now rewrite Hs2, Hs1, app_assoc.
    + rewrite Hn2, Hn1. split.
      * intros [[H H'] H'']. split; [exact H|]. now rewrite H', H''.
      * intros [H H']. apply app_eq_nil in H'. tauto.
Qed.

(** X4: after any sequence of appends and listings on an empty store,
    the conversation of a user holds exactly the messages appended for
    that user, with their texts and senders, in the order of the calls;
    and the store has a conversation for exactly the users for whom
    something was appended. *)
Theorem stored_is_appended (E : Env) (w0 : World) (ops : list StoreOp)
    (u : string) :
  conversations w0 = [] ->
  exists w,
    runOps E ops w0 = (Normal tt, w) /\
    storedFor u w = appendsFor u ops /\
    (lookupUser u (conversations w) = None <-> appendsFor u ops = []).
Proof.
  intros H0.
  assert (Hu0 : uniqueUsers w0) by (unfold uniqueUsers; rewrite H0; constructor).
  destruct (runOps_stored E ops w0 u Hu0) as (w & Hrun & _ & Hs & Hn).
  exists w. split; [exact Hrun|].
  unfold storedFor in Hs at 2. rewrite H0 in Hs, Hn. cbn in Hs, Hn.
  split; [exact Hs | tauto].
Qed.

Lemma stored_is_appended_witness :
  exists w,
    runOps tickingEnv
      [OpAppend "1000000001" None "Hi, I need help" user;
       OpAppend "1000000002" None "Hello" user;
       OpList;
       OpAppend "1000000001" None "Here you go" bot]
      (freshWorld exampleConfig) = (Normal tt, w) /\
    storedFor "1000000001" w
    = [("Hi, I need help", user); ("Here you go", bot)].
Proof.
  destruct (stored_is_appended tickingEnv (freshWorld exampleConfig)
              [OpAppend "1000000001" None "Hi, I need help" user;
               OpAppend "1000000002" None "Hello" user;
               OpList;
               OpAppend "1000000001" None "Here you go" bot]
              "1000000001" eq_refl) as (w & Hrun & Hs & _).
  exists w. split; [exact Hrun | exact Hs].
Defined.

(* ================================================================== *)
(** ** More on the pipeline *)
(* ================================================================== *)

(** The history that the store holds for [u]. *)
Lemma history_step (E : Env) (w : World) (u txt : string) (s : Sender) :
  exists c w' m,
    addMessageToConversation E (Some u) None txt s w = (Normal c, w') /\
    lookupUser u (conversations w') = Some c /\
    messages c
    = (match lookupUser u (conversations w) with
       | Some c0 => messages c0
       | None => []
       end ++ [m])%list /\
    text m = txt /\ sender m = s.
Proof.
  destruct (appendMessage_step E w u None txt s)
    as (c & w' & m & k & Heq & Htm & Hsm & _ & _ & _ & Hcase & Hlk & _).
  exists c, w', m. repeat (split; [assumption|]). split; [|now split].
  destruct (lookupUser u (conversations w)); now destruct Hcase as (-> & _).
Qed.

Lemma timerCallback_failed (E : Env) (sid : option string) (txt : string)
    (w : World) :
  sendApi E sid txt = false ->
  timerCallback E sid txt w = (Normal tt, snd (pushDelivery sid txt w)).
Proof.
  intros H. unfold timerCallback, tryCatch, bind, sendInstagramMessage.
  cbn [pushDelivery]. now rewrite H.
Qed.

Lemma timerCallback_sent (E : Env) (sid : option string) (txt : string)
    (w : World) :
  sendApi E sid txt = true ->
  timerCallback E sid txt w
  = (Normal tt,
     snd (addMessageToConversation E sid None txt bot
            (snd (pushDelivery sid txt w)))).
Proof.
  intros H.
  cbv [timerCallback tryCatch bind sendInstagramMessage pushDelivery ret
       throw snd].
  rewrite H. cbv [bind].
  destruct (addMessageToConversation E sid None txt bot _) as [[c|e] w1];
    reflexivity.
Qed.

(** X5: the timer callback never throws and posts the text to the send
    API exactly once.  The reply is recorded as a [bot] message, at the
    end of the recipient's conversation, when the post succeeded; when
    it failed, the store is left as it was. *)
Theorem timerCallback_records_iff_sent (E : Env) (sid : option string)
    (txt : string) (w : World) :
  exists w',
    timerCallback E sid txt w = (Normal tt, w') /\
    deliveries w' = (deliveries w ++ [(sid, txt)])%list /\
    timers w' = timers w /\ llmCalls w' = llmCalls w /\
    (sendApi E sid txt = false -> conversations w' = conversations w) /\
    (forall u, sid = Some u -> sendApi E sid txt = true ->
       exists c m,
         lookupUser u (conversations w') = Some c /\
         messages c
         = (match lookupUser u (conversations w) with
            | Some c0 => messages c0
            | None => []
            end ++ [m])%list /\
         text m = txt /\ sender m = bot).
Proof.
  destruct (sendApi E sid txt) eqn:Hsend.
  - rewrite (timerCallback_sent E sid txt w Hsend).
    destruct (addMessage_frame E (snd (pushDelivery sid txt w)) sid None
                txt bot) as (cs & dc & du & Hf).
    eexists. split; [reflexivity|]. rewrite Hf.
    repeat (split; [reflexivity|]). split; [discriminate|].
    intros u -> _. rewrite <- Hf.
    destruct (history_step E (snd (pushDelivery (Some u) txt w)) u txt bot)
      as (c & w1 & m & Heq & Hlk & Hm & Ht & Hs).
    rewrite Heq. now exists c, m.
  - rewrite (timerCallback_failed E sid txt w Hsend).
    eexists. split; [reflexivity|].
    repeat (split; [reflexivity|]).
    intros u _ H. discriminate H.
Qed.

Lemma timerCallback_records_iff_sent_witness :
  let w := snd (Index.handleEntry tickingEnv
                  (textEvent (Some {| id := Some "1000000001" |})
                             (Some "Hi, I need help"))
                  (freshWorld exampleConfig)) in
  exists w' c m,
    timerCallback tickingEnv (Some "1000000001")
      "Book here: https://cal.example/me" w = (Normal tt, w') /\
    lookupUser "1000000001" (conversations w') = Some c /\
    messages c
    = (match lookupUser "1000000001" (conversations w) with
       | Some c0 => messages c0
       | None => []
       end ++ [m])%list /\
    text m = "Book here: https://cal.example/me" /\ sender m = bot.
Proof.
  intros w.
  destruct (timerCallback_records_iff_sent tickingEnv (Some "1000000001")
              "Book here: https://cal.example/me" w)
    as (w' & Heq & _ & _ & _ & _ & H).
  destruct (H "1000000001" eq_refl eq_refl) as (c & m & Hc).
  exists w', c, m. split; [exact Heq | exact Hc].
Defined.

(** X6: one full cycle in [src/index.js].  For an event with a sender id
    and a text, when the chat-completion endpoint replies and the send
    API accepts the post, the sender's conversation gains exactly two
    messages: the text of the event as a [user] message, then the reply
    with the placeholder substituted as a [bot] message; and the text
    posted to the send API is the text recorded. *)
Theorem Index_full_cycle (E : Env) (w : World) (u txt reply : string)
    (rest : list MessagingEvent) :
  let e := {| messaging :=
                Some ({| ev_sender := Some {| id := Some u |};
                         ev_message := Some {| msg_text := Some txt |} |}
                      :: rest) |} in
  let history :=
    match lookupUser u (conversations w) with
    | Some c0 => messages c0
    | None => []
    end in
  let final := replace BOOKING_URL (calendlyUrl (configuration w)) reply in
  txt <> "" ->
  chatCompletion E (List.length (llmCalls w))
    (buildMessages (configuration w) txt history) = Some reply ->
  sendApi E (Some u) final = true ->
  exists w1 w2 c m1 m2,
    Index.handleEntry E e w = (Normal tt, w1) /\
    timers w1 = (timers w ++ [(Some u, final)])%list /\
    timerCallback E (Some u) final w1 = (Normal tt, w2) /\
    deliveries w2 = (deliveries w ++ [(Some u, final)])%list /\
    lookupUser u (conversations w2) = Some c /\
    messages c = (history ++ [m1; m2])%list /\
    text m1 = txt /\ sender m1 = user /\
    text m2 = final /\ sender m2 = bot.
Proof.
  intros e history final Htxt Hllm Hsend.
  destruct (Index_handleEntry_message E w u txt rest Htxt)
    as (c1 & wa & Heq & Hcfg & Hcalls & Htim & HI).
  destruct (history_step E w u txt user)
    as (c1' & wa' & m1 & Heq' & Hlk1 & Hm1 & Ht1 & Hs1).
  rewrite Heq in Heq'. injection Heq' as <- <-.
  fold history in Hm1. fold e in HI. cbv zeta in HI.
  unfold sliceButLast in HI. rewrite Hm1, removelast_snoc, Hllm in HI.
  fold final in HI.
  destruct (addMessage_frame E w (Some u) None txt user)
    as (cs & dc & du & Hf).
  rewrite Heq in Hf. cbn [snd] in Hf.
  set (w1 := snd (setTimeout (Some u) final
                    (snd (pushLlmCall (buildMessages (configuration w) txt
                                         history) wa)))) in *.
  assert (Hstore1 : conversations w1 = conversations wa) by reflexivity.
  assert (Hdel1 : deliveries w1 = deliveries w) by (subst wa; reflexivity).
  destruct (timerCallback_records_iff_sent E (Some u) final w1)
    as (w2 & Hrun & Hdel & _ & _ & _ & Hrec).
  destruct (Hrec u eq_refl Hsend) as (c & m2 & Hlk2 & Hm2 & Ht2 & Hs2).
  rewrite Hstore1, Hlk1, Hm1 in Hm2.
  exists w1, w2, c, m1, m2. split; [exact HI|].
  split; [subst w1; cbn; now rewrite Htim|].
  split; [exact Hrun|]. split; [now rewrite Hdel, Hdel1|].
  split; [exact Hlk2|]. split; [now rewrite Hm2, <- app_assoc|].
  auto.
Qed.

Lemma Index_full_cycle_witness :
  exists w1 w2 c m1 m2,
    Index.handleEntry tickingEnv
      (textEvent (Some {| id := Some "1000000001" |}) (Some "Hi, I need help"))
      (freshWorld exampleConfig) = (Normal tt, w1) /\
    timerCallback tickingEnv (Some "1000000001")
      (replace BOOKING_URL "https://cal.example/me" "Book here: {BOOKING_URL}")
      w1 = (Normal tt, w2) /\
    lookupUser "1000000001" (conversations w2) = Some c /\
    messages c = [m1; m2] /\
    text m1 = "Hi, I need help" /\
    text m2
    = replace BOOKING_URL "https://cal.example/me" "Book here: {BOOKING_URL}".
Proof.
  destruct (Index_full_cycle tickingEnv (freshWorld exampleConfig)
              "1000000001" "Hi, I need help" "Book here: {BOOKING_URL}" []
              ltac:(discriminate) eq_refl eq_refl)
    as (w1 & w2 & c & m1 & m2 & H1 & _ & H2 & _ & H3 & H4 & H5 & _ & H6 & _).
  exists w1, w2, c, m1, m2.
  split; [exact H1|]. split; [exact H2|]. split; [exact H3|].
  split; [exact H4|]. split; [exact H5 | exact H6].
Defined.

(** X7: in [src/index.js], when the chat-completion request fails, the
    platform is answered 500; the user's message has already been
    recorded and stays so, nothing is scheduled for delivery, and the
    entries that follow in the payload are not processed. *)
Theorem Index_llm_failure (E : Env) (w : World) (u txt : string)
    (rest : list MessagingEvent) (later : list Entry)
    (sig : option string) :
  let e := {| messaging :=
                Some ({| ev_sender := Some {| id := Some u |};
                         ev_message := Some {| msg_text := Some txt |} |}
                      :: rest) |} in
  let history :=
    match lookupUser u (conversations w) with
    | Some c0 => messages c0
    | None => []
    end in
  txt <> "" ->
  chatCompletion E (List.length (llmCalls w))
    (buildMessages (configuration w) txt history) = None ->
  exists w' c m,
    Index.post_webhook E
      {| x_hub_signature_256 := sig; body := instagramBody (e :: later) |} w
    = (Normal {| code := 500; sent := Some "Internal server error" |}, w') /\
    w' = snd (Index.handleEntry E e w) /\
    timers w' = timers w /\
    lookupUser u (conversations w') = Some c /\
    messages c = (history ++ [m])%list /\
    text m = txt /\ sender m = user.
Proof.
  intros e history Htxt Hllm.
  destruct (Index_handleEntry_message E w u txt rest Htxt)
    as (c & wa & Heq & Hcfg & Hcalls & Htim & HI).
  destruct (history_step E w u txt user)
    as (c' & wa' & m & Heq' & Hlk & Hm & Ht & Hs).
  rewrite Heq in Heq'. injection Heq' as <- <-.
  fold history in Hm. fold e in HI. cbv zeta in HI.
  unfold sliceButLast in HI. rewrite Hm, removelast_snoc, Hllm in HI.
  exists (snd (Index.handleEntry E e w)), c, m.
  split.
  - unfold Index.post_webhook, tryCatch, bind.
    cbn [body object instagramBody entry]. cbn [strictEq].
    rewrite String.eqb_refl. cbn [Index.forOf]. unfold bind.
    rewrite HI. reflexivity.
  - rewrite HI. cbn [snd]. split; [reflexivity|].
    split; [exact Htim|]. auto.
Qed.

Lemma Index_llm_failure_witness :
  let E := {| now := now tickingEnv; randomUUID := randomUUID tickingEnv;
              hmacSha256Hex := hmacSha256Hex tickingEnv;
              WEBHOOK_SECRET := None;
              JSON_stringify := JSON_stringify tickingEnv;
              chatCompletion := fun _ _ => None;
              sendApi := sendApi tickingEnv |} in
  exists w',
    Index.post_webhook E
      {| x_hub_signature_256 := None;
         body := instagramBody
                   [textEvent (Some {| id := Some "1000000001" |})
                              (Some "Hi, I need help")] |}
      (freshWorld exampleConfig)
    = (Normal {| code := 500; sent := Some "Internal server error" |}, w') /\
    timers w' = [].
Proof.
  intros E.
  destruct (Index_llm_failure E (freshWorld exampleConfig) "1000000001"
              "Hi, I need help" [] [] None ltac:(discriminate) eq_refl)
    as (w' & c & m & H1 & _ & H2 & _).
  exists w'. split; [exact H1 | exact H2].
Defined.

(** X8: in [src/unnamed/part_000], when an awaited chat-completion
    request settles, exactly one delivery is scheduled, for the sender of
    the event, and nothing else changes.  Its text is what
    [src/index.js] computes, the reply after [replace]; when the request
    failed it is the apology, whatever the booking link is. *)
Theorem Part000_callbackResume_schedules (a : Awaiting)
    (result : option string) (w : World) :
  exists w',
    Part000.callbackResume a result w = (Normal tt, w') /\
    timers w'
    = (timers w
       ++ [(aw_sender a,
            replace BOOKING_URL (calendlyUrl (configuration w))
              (Part000.settled result))])%list /\
    conversations w' = conversations w /\ llmCalls w' = llmCalls w /\
    deliveries w' = deliveries w /\
    timers (snd (Part000.callbackResume a None w))
    = (timers w
       ++ [(aw_sender a,
            "Sorry, I'm having trouble responding right now.")])%list.
Proof.
  unfold Part000.callbackResume, bind, getConfiguration, setTimeout.
  eexists. split; [reflexivity|]. cbn [timers conversations llmCalls
    deliveries snd].
  rewrite guarded_replace. repeat (split; [reflexivity|]).
  cbn [Part000.settled]. rewrite guarded_replace.
  rewrite replace_absent; [reflexivity|]. vm_compute. reflexivity.
Qed.

(* ------------------------------------------------------------------ *)
(** *** Several entries in one payload *)

Lemma Index_forOf_app (E : Env) (l1 l2 : list Entry) (w : World) :
  Index.forOf E (l1 ++ l2) w =
  match Index.forOf E l1 w with
  | (Normal _, w1) => Index.forOf E l2 w1
  | (Throw err, w1) => (Throw err, w1)
  end.
Proof.
  revert w; induction l1 as [|e l1 IH]; intros w; [reflexivity|].
  cbn [app Index.forOf]. unfold bind.
  destruct (Index.handleEntry E e w) as [[[]|err] w1]; [apply IH | reflexivity].
Qed.

(** X9: in [src/index.js] the entries of a payload are processed in
    order until one throws.  After entries that went through, the rest
    is processed from the state they left; once an entry has thrown, the
    answer is 500 with the state as it was at the throw, whatever
    follows in the payload. *)
Theorem Index_entries_cut_at_throw (E : Env) (l1 l2 : list Entry)
    (w w1 : World) (sig : option string) :
  (Index.forOf E l1 w = (Normal tt, w1) ->
   Index.post_webhook E
     {| x_hub_signature_256 := sig; body := instagramBody (l1 ++ l2) |} w
   = Index.post_webhook E
       {| x_hub_signature_256 := sig; body := instagramBody l2 |} w1) /\
  (forall err,
     Index.forOf E l1 w = (Throw err, w1) ->
     Index.post_webhook E
       {| x_hub_signature_256 := sig; body := instagramBody (l1 ++ l2) |} w
     = (Normal {| code := 500; sent := Some "Internal server error" |}, w1)).
Proof.
  unfold Index.post_webhook, tryCatch, bind.
  cbn [body object instagramBody entry]. cbn [strictEq].
  rewrite String.eqb_refl. rewrite Index_forOf_app.
  split; [intros H | intros err H]; rewrite H; reflexivity.
Qed.

Lemma Index_entries_cut_at_throw_witness :
  Index.post_webhook tickingEnv
    {| x_hub_signature_256 := None;
       body := instagramBody
                 ([textEvent None (Some "Hi, I need help")]
                  ++ [textEvent (Some {| id := Some "1000000001" |})
                                (Some "Hello")]) |}
    (freshWorld exampleConfig)
  = (Normal {| code := 500; sent := Some "Internal server error" |},
     freshWorld exampleConfig).
Proof.
  destruct (Index_entries_cut_at_throw tickingEnv
              [textEvent None (Some "Hi, I need help")]
              [textEvent (Some {| id := Some "1000000001" |}) (Some "Hello")]
              (freshWorld exampleConfig) (freshWorld exampleConfig) None)
    as (_ & H).
  apply (H TypeError). reflexivity.
Defined.

Lemma Index_handleEntry_firstOnly (E : Env) (e : Entry) :
  Index.handleEntry E (firstEventOnly e) = Index.handleEntry E e.
Proof. now destruct e as [[[|ev rest]|]]. Qed.

Lemma Part000_callbackStart_firstOnly (E : Env) (e : Entry) :
  Part000.callbackStart E (firstEventOnly e) = Part000.callbackStart E e.
Proof. now destruct e as [[[|ev rest]|]]. Qed.

(** X11: of the events that an entry carries in [messaging], only the
    first is ever looked at: a payload and the same payload cut down to
    the first event of each entry are handled alike, in both files. *)
Theorem only_first_event_of_an_entry (E : Env) (req : Request) (w : World)
    (l : list Entry) :
  Index.post_webhook E (firstEventsOnly req) w = Index.post_webhook E req w /\
  Part000.forEach E (map firstEventOnly l) w = Part000.forEach E l w.
Proof.
  split.
  - unfold Index.post_webhook, firstEventsOnly. cbn [body object entry].
    destruct (entry (body req)) as [es|]; [|reflexivity]. cbn [option_map].
    assert (H : forall w', Index.forOf E (map firstEventOnly es) w'
                           = Index.forOf E es w').
    { induction es as [|e es IH]; intros w'; [reflexivity|].
      cbn [map Index.forOf]. unfold bind.
      rewrite Index_handleEntry_firstOnly.
      destruct (Index.handleEntry E e w') as [[[]|err] w1];
        [apply IH | reflexivity]. }
    unfold tryCatch, bind.
    destruct (strictEq (object (body req)) (Some "instagram"));
      [now rewrite H | reflexivity].
  - revert w; induction l as [|e es IH]; intros w; [reflexivity|].
    cbn [map Part000.forEach]. unfold bind, tryCatch.
    rewrite Part000_callbackStart_firstOnly.
    destruct (Part000.callbackStart E e w) as [[[]|err] w1]; apply IH.
Qed.

(* ================================================================== *)
(** ** Properties of the state that every handler keeps *)
(* ================================================================== *)

Section ServerInvariant.

Variable E : Env.
Variable Inv : World -> Prop.

(** [Inv] is kept by an append made with no username, as the handlers
    make them, and by a listing; and it reads only the store and the
    count of clock readings. *)
Hypothesis Inv_append :
  forall uid txt s, keeps Inv (addMessageToConversation E uid None txt s).
Hypothesis Inv_list : keeps Inv get_api_conversations.
Hypothesis Inv_reads :
  forall w w', Inv w -> conversations w' = conversations w ->
               clockReads w' = clockReads w -> Inv w'.

Lemma keeps_ret {A} (a : A) : keeps Inv (ret a).
Proof. intros w H. exact H. Qed.

Lemma keeps_throw {A} (err : JsError) : keeps Inv (@throw A err).
Proof. intros w H. exact H. Qed.

Lemma keeps_liftC {A} (c : Completion A) : keeps Inv (liftC c).
Proof. intros w H. exact H. Qed.

Lemma keeps_bind {A B} (m : M A) (k : A -> M B) :
  keeps Inv m -> (forall a, keeps Inv (k a)) -> keeps Inv (bind m k).
Proof.
  intros Hm Hk w H. unfold bind. specialize (Hm w H).
  destruct (m w) as [[a|err] w1]; [now apply Hk | exact Hm].
Qed.

Lemma keeps_tryCatch {A} (m : M A) (h : JsError -> M A) :
  keeps Inv m -> (forall err, keeps Inv (h err)) -> keeps Inv (tryCatch m h).
Proof.
  intros Hm Hh w H. unfold tryCatch. specialize (Hm w H).
  destruct (m w) as [[a|err] w1]; [exact Hm | now apply Hh].
Qed.

Lemma keeps_getConfiguration : keeps Inv getConfiguration.
Proof. intros w H. exact H. Qed.

Lemma keeps_pushLlmCall (p : list ChatMessage) : keeps Inv (pushLlmCall p).
Proof. intros w H. now apply (Inv_reads w). Qed.

Lemma keeps_setTimeout (r : option string) (t : string) :
  keeps Inv (setTimeout r t).
Proof. intros w H. now apply (Inv_reads w). Qed.

Lemma keeps_pushAwaiting (a : Awaiting) : keeps Inv (pushAwaiting a).
Proof. intros w H. now apply (Inv_reads w). Qed.

Lemma keeps_pushRejection (err : JsError) : keeps Inv (pushRejection err).
Proof. intros w H. now apply (Inv_reads w). Qed.

Lemma keeps_pushDelivery (r : option string) (t : string) :
  keeps Inv (pushDelivery r t).
Proof. intros w H. now apply (Inv_reads w). Qed.

Ltac keeps_step :=
  lazymatch goal with
  | |- keeps _ (bind _ _) => apply keeps_bind; [|intros ?]
  | |- keeps _ (tryCatch _ _) => apply keeps_tryCatch; [|intros ?]
  | |- keeps _ (ret _) => apply keeps_ret
  | |- keeps _ (throw _) => apply keeps_throw
  | |- keeps _ (liftC _) => apply keeps_liftC
  | |- keeps _ getConfiguration => apply keeps_getConfiguration
  | |- keeps _ (pushLlmCall _) => apply keeps_pushLlmCall
  | |- keeps _ (setTimeout _ _) => apply keeps_setTimeout
  | |- keeps _ (pushAwaiting _) => apply keeps_pushAwaiting
  | |- keeps _ (pushRejection _) => apply keeps_pushRejection
  | |- keeps _ (pushDelivery _ _) => apply keeps_pushDelivery
  | |- keeps _ (addMessageToConversation _ _ None _ _) => apply Inv_append
  | |- keeps _ (match ?x with _ => _ end) => destruct x
  end.

Lemma keeps_Index_handleEntry (e : Entry) : keeps Inv (Index.handleEntry E e).
Proof.
  unfold Index.handleEntry, Index.sendMessageToLLM,
    Index.sendMessageToOpenAI.
  repeat keeps_step.
Qed.

Lemma keeps_Index_forOf (l : list Entry) : keeps Inv (Index.forOf E l).
Proof.
  induction l as [|e l IH]; cbn [Index.forOf]; [apply keeps_ret|].
  apply keeps_bind; [apply keeps_Index_handleEntry | intros _; exact IH].
Qed.

Lemma keeps_Index_post_webhook (req : Request) :
  keeps Inv (Index.post_webhook E req).
Proof.
  unfold Index.post_webhook.
  apply keeps_tryCatch; [|intros _; apply keeps_ret].
  apply keeps_bind; [|intros _; apply keeps_ret].
  destruct (strictEq _ _); [apply keeps_Index_forOf | apply keeps_ret].
Qed.

Lemma keeps_Part000_callbackStart (e : Entry) :
  keeps Inv (Part000.callbackStart E e).
Proof.
  unfold Part000.callbackStart, Part000.postChatCompletion.
  repeat keeps_step.
Qed.

Lemma keeps_Part000_forEach (l : list Entry) : keeps Inv (Part000.forEach E l).
Proof.
  induction l as [|e l IH]; cbn [Part000.forEach]; [apply keeps_ret|].
  apply keeps_bind; [|intros _; exact IH].
  apply keeps_tryCatch;
    [apply keeps_Part000_callbackStart | apply keeps_pushRejection].
Qed.

Lemma keeps_Part000_post_webhook (req : Request) :
  keeps Inv (Part000.post_webhook E req).
Proof.
  unfold Part000.post_webhook. cbv zeta.
  apply keeps_tryCatch; [|intros _; apply keeps_ret].
  apply keeps_bind; [apply keeps_liftC | intros valid].
  destruct (negb valid); [apply keeps_ret|].
  apply keeps_bind; [|intros _; apply keeps_ret].
  destruct (strictEq _ _); [|apply keeps_ret].
  destruct (entry (body req)); [apply keeps_Part000_forEach | apply keeps_ret].
Qed.

Lemma keeps_Part000_callbackResume (a : Awaiting) (result : option string) :
  keeps Inv (Part000.callbackResume a result).
Proof. unfold Part000.callbackResume. cbv zeta. repeat keeps_step. Qed.

Lemma keeps_timerCallback (r : option string) (t : string) :
  keeps Inv (timerCallback E r t).
Proof.
  unfold timerCallback, sendInstagramMessage. repeat keeps_step.
Qed.

Lemma runEvent_keeps (ev : ServerEvent) (w : World) :
  Inv w -> Inv (runEvent E ev w).
Proof.
  destruct ev; cbn [runEvent].
  - apply keeps_Index_post_webhook.
  - apply keeps_Part000_post_webhook.
  - apply keeps_Part000_callbackResume.
  - apply keeps_timerCallback.
  - apply Inv_list.
Qed.

Lemma runEvents_keeps (evs : list ServerEvent) (w : World) :
  Inv w -> Inv (runEvents E evs w).
Proof.
  revert w; induction evs as [|ev evs IH]; intros w H; [exact H|].
  cbn [runEvents]. apply IH. now apply runEvent_keeps.
Qed.

End ServerInvariant.

(* ------------------------------------------------------------------ *)
(** *** One conversation per user, and each with a user id *)

Lemma pushMessage_userId (m : Message) (t : Z) (c : Conversation) :
  userId (pushMessage m t c) = userId c.
Proof. reflexivity. Qed.

Lemma addMessage_unique (E : Env) (uid : option string) (txt : string)
    (s : Sender) :
  keeps uniqueUsers (addMessageToConversation E uid None txt s).
Proof.
  intros w Hu.
  destruct (findWithIndex (hasUserId uid) (conversations w))
    as [[i c0]|] eqn:F.
  - rewrite (addMessage_existing E w uid None txt s i c0 F).
    destruct (findWithIndex_Some _ _ _ _ F) as (l1 & l2 & Hl & Hi & _ & _).
    unfold uniqueUsers in *. cbn. rewrite Hl in *. rewrite <- Hi.
    rewrite setAt_middle. eapply uniqueUsers_existing; [|exact Hu].
    reflexivity.
  - destruct uid as [u|].
    + rewrite (addMessage_created E w u None txt s F).
      unfold uniqueUsers in *. cbn. apply uniqueUsers_created; [|exact Hu].
      now apply findWithIndex_None.
    + rewrite (addMessage_undefined E w None txt s F eq_refl). exact Hu.
Qed.

Lemma listing_unique : keeps uniqueUsers get_api_conversations.
Proof.
  intros w Hu. rewrite get_api_conversations_eq. unfold uniqueUsers in *. cbn.
  eapply Permutation_NoDup; [|exact Hu].
  apply Permutation_map. symmetry. apply sortBy_perm.
Qed.

Lemma listing_allIdentified : keeps allIdentified get_api_conversations.
Proof.
  intros w Hw. rewrite get_api_conversations_eq. unfold allIdentified in *.
  cbn. now rewrite sortBy_perm.
Qed.

(** X12: whatever the server goes through, starting with an empty store
    (webhook posts of either file, settled completions, timers,
    listings), the store never holds two conversations with the same
    user id, nor a conversation without a user id. *)
Theorem server_one_conversation_per_user (E : Env) (evs : list ServerEvent)
    (w0 : World) :
  conversations w0 = [] ->
  uniqueUsers (runEvents E evs w0) /\ allIdentified (runEvents E evs w0).
Proof.
  intros H0.
  apply (runEvents_keeps E (fun w => uniqueUsers w /\ allIdentified w)).
  - intros uid txt s w [Hu Hi]. split;
      [now apply addMessage_unique | now apply addMessage_allIdentified].
  - intros w [Hu Hi]. split;
      [now apply listing_unique | now apply listing_allIdentified].
  - intros w w' [Hu Hi] Hc _. unfold uniqueUsers, allIdentified in *.
    rewrite Hc. now split.
  - unfold uniqueUsers, allIdentified. rewrite H0. split; constructor.
Qed.

Lemma server_one_conversation_per_user_witness :
  let post u t :=
    EvIndexPost {| x_hub_signature_256 := None;
                   body := instagramBody
                             [textEvent (Some {| id := Some u |}) (Some t)] |} in
  uniqueUsers
    (runEvents tickingEnv
       [post "1000000001" "Hi, I need help"; EvList;
        EvTimer (Some "1000000001") "Book here: https://cal.example/me";
        post "1000000002" "Hello"; post "1000000001" "Thanks"]
       (freshWorld exampleConfig)).
Proof.
  intros post.
  apply (server_one_conversation_per_user tickingEnv _
           (freshWorld exampleConfig) eq_refl).
Defined.

(* ------------------------------------------------------------------ *)
(** *** Nothing is deleted or rewritten *)

Lemma extends_refl (c : Conversation) : extends c c.
Proof. repeat split. exists []. now rewrite app_nil_r. Qed.

Lemma extends_trans (a b c : Conversation) :
  extends a b -> extends b c -> extends a c.
Proof.
  intros (H1 & H2 & H3 & H4 & m1 & H5) (K1 & K2 & K3 & K4 & m2 & K5).
  repeat split; try congruence.
  exists (m1 ++ m2)%list. now rewrite K5, H5, app_assoc.
Qed.

Lemma grows_refl (l : list Conversation) : grows l l.
Proof. intros c Hc. exists c. split; [exact Hc | apply extends_refl]. Qed.

Lemma grows_trans (l1 l2 l3 : list Conversation) :
  grows l1 l2 -> grows l2 l3 -> grows l1 l3.
Proof.
  intros H12 H23 c0 Hc0. destruct (H12 c0 Hc0) as (c1 & Hc1 & He1).
  destruct (H23 c1 Hc1) as (c2 & Hc2 & He2).
  exists c2. split; [exact Hc2 | eapply extends_trans; eassumption].
Qed.

Lemma extends_pushMessage (m : Message) (t : Z) (c : Conversation) :
  extends c (pushMessage m t c).
Proof. repeat split. now exists [m]. Qed.

Lemma grows_append (E : Env) (uid : option string) (txt : string)
    (s : Sender) (w : World) :
  grows (conversations w)
        (conversations (snd (addMessageToConversation E uid None txt s w))).
Proof.
  destruct (findWithIndex (hasUserId uid) (conversations w))
    as [[i c0]|] eqn:F.
  - rewrite (addMessage_existing E w uid None txt s i c0 F).
    destruct (findWithIndex_Some _ _ _ _ F) as (l1 & l2 & Hl & Hi & _ & _).
    cbn. rewrite Hl, <- Hi, setAt_middle.
    intros c Hc. apply in_app_or in Hc. destruct Hc as [Hc|[<-|Hc]].
    + exists c. split; [apply in_or_app; now left | apply extends_refl].
    + eexists. split; [apply in_or_app; right; now left|].
      apply extends_pushMessage.
    + exists c. split; [apply in_or_app; right; now right | apply extends_refl].
  - destruct uid as [u|].
    + rewrite (addMessage_created E w u None txt s F). cbn.
      intros c Hc. exists c.
      split; [apply in_or_app; now left | apply extends_refl].
    + rewrite (addMessage_undefined E w None txt s F eq_refl).
      apply grows_refl.
Qed.

Lemma grows_listing (w : World) :
  grows (conversations w) (conversations (snd (get_api_conversations w))).
Proof.
  rewrite get_api_conversations_eq. cbn. intros c Hc. exists c.
  split; [|apply extends_refl].
  eapply Permutation_in; [symmetry; apply sortBy_perm | exact Hc].
Qed.

(* ------------------------------------------------------------------ *)
(** *** The loop over the entries in [src/unnamed/part_000] *)

Lemma Part000_forEach_app (E : Env) (l1 l2 : list Entry) (w : World) :
  Part000.forEach E (l1 ++ l2) w
  = Part000.forEach E l2 (snd (Part000.forEach E l1 w)).
Proof.
  revert w; induction l1 as [|e l1 IH]; intros w; [reflexivity|].
  cbn [app Part000.forEach]. unfold bind, tryCatch, pushRejection.
  destruct (Part000.callbackStart E e w) as [[[]|err] w1]; apply IH.
Qed.

Lemma Part000_forEach_cons (E : Env) (e : Entry) (l : list Entry)
    (w : World) :
  Part000.forEach E (e :: l) w
  = match Part000.callbackStart E e w with
    | (Normal _, w1) => Part000.forEach E l w1
    | (Throw err, w1) => Part000.forEach E l (snd (pushRejection err w1))
    end.
Proof.
  cbn [Part000.forEach]. unfold bind, tryCatch.
  now destruct (Part000.callbackStart E e w) as [[[]|err] w1].
Qed.

Lemma Part000_forEach_grows (E : Env) (l : list Entry) (w : World) :
  grows (conversations w) (conversations (snd (Part000.forEach E l w))).
Proof.
  apply (keeps_Part000_forEach E
           (fun w' => grows (conversations w) (conversations w'))).
  - intros uid txt s w' H. eapply grows_trans; [exact H | apply grows_append].
  - intros w1 w2 H Hc _. now rewrite Hc.
  - apply grows_refl.
Qed.

Lemma holdsUserMessage_grows (u txt : string) (w w' : World) :
  grows (conversations w) (conversations w') ->
  holdsUserMessage u txt w -> holdsUserMessage u txt w'.
Proof.
  intros Hg (c & m & Hc & Hu & Hm & Ht & Hs).
  destruct (Hg c Hc) as (c' & Hc' & _ & Hu' & _ & _ & more & Hmore).
  exists c', m. split; [exact Hc'|]. split; [now rewrite Hu'|].
  split; [|now split].
  rewrite Hmore. apply in_or_app. now left.
Qed.

(** The callback, on an entry whose first event is a text with a sender
    id, reaches its await with the text in the store. *)
Lemma Part000_callbackStart_stores (E : Env) (w : World) (u txt : string)
    (rest : list MessagingEvent) :
  txt <> "" ->
  exists w1,
    Part000.callbackStart E (textEntry u txt rest) w = (Normal tt, w1) /\
    holdsUserMessage u txt w1.
Proof.
  intros Htxt.
  destruct (Part000_callbackStart_message E w u txt rest Htxt)
    as (c & wa & Heq & _ & _ & HP).
  cbv zeta in HP. unfold textEntry. rewrite HP.
  eexists. split; [reflexivity|].
  destruct (history_step E w u txt user)
    as (c' & w' & m & Heq' & Hlk & Hm & Ht & Hs).
  rewrite Heq in Heq'. injection Heq' as <- <-.
  unfold lookupUser in Hlk. apply find_some in Hlk. destruct Hlk as [Hin Hp].
  apply hasUserId_true in Hp.
  exists c, m. split; [exact Hin|]. split; [exact Hp|].
  split; [|now split].
  rewrite Hm. apply in_or_app. right. now left.
Qed.

(** Wherever it stands among the entries, and whatever the others are,
    a text event with a sender id has its text in the store when the
    loop is over. *)
Lemma Part000_forEach_stores (E : Env) (l1 l2 : list Entry) (w : World)
    (u txt : string) (rest : list MessagingEvent) :
  txt <> "" ->
  holdsUserMessage u txt
    (snd (Part000.forEach E (l1 ++ textEntry u txt rest :: l2) w)).
Proof.
  intros Htxt. rewrite Part000_forEach_app, Part000_forEach_cons.
  destruct (Part000_callbackStart_stores E (snd (Part000.forEach E l1 w))
              u txt rest Htxt) as (w1 & Hcs & Hh).
  rewrite Hcs.
  eapply holdsUserMessage_grows; [apply Part000_forEach_grows | exact Hh].
Qed.

(** X10: in [src/unnamed/part_000] every entry of a payload is taken up,
    whatever happened to the entries before it.  The loop never throws;
    an entry is handled by the callback from the state that the entries
    before it have left, an exception of the callback is set aside as a
    rejection, and the entries after it follow; and an entry whose first
    event is a text with a sender id has that text in the store, as a
    message of that user, when the loop is over. *)
Theorem Part000_entries_independent (E : Env) (l1 l2 : list Entry)
    (e : Entry) (w : World) :
  let w1 := snd (Part000.forEach E l1 w) in
  Part000.forEach E (l1 ++ l2) w = Part000.forEach E l2 w1 /\
  Part000.forEach E (l1 ++ e :: l2) w
  = match Part000.callbackStart E e w1 with
    | (Normal _, w2) => Part000.forEach E l2 w2
    | (Throw err, w2) => Part000.forEach E l2 (snd (pushRejection err w2))
    end /\
  fst (Part000.forEach E (l1 ++ e :: l2) w) = Normal tt /\
  forall u txt rest,
    e = textEntry u txt rest -> txt <> "" ->
    holdsUserMessage u txt (snd (Part000.forEach E (l1 ++ e :: l2) w)).
Proof.
  cbv zeta. split; [apply Part000_forEach_app|].
  split; [now rewrite Part000_forEach_app, Part000_forEach_cons|].
  split; [apply Part000_forEach_normal|].
  intros u txt rest -> Htxt. now apply Part000_forEach_stores.
Qed.

Lemma Part000_entries_independent_witness :
  holdsUserMessage "1000000001" "Hello"
    (snd (Part000.forEach tickingEnv
            ([textEvent None (Some "Hi, I need help")]
             ++ textEntry "1000000001" "Hello" [] :: [])
            (freshWorld exampleConfig))).
Proof.
  destruct (Part000_entries_independent tickingEnv
              [textEvent None (Some "Hi, I need help")] []
              (textEntry "1000000001" "Hello" [])
              (freshWorld exampleConfig)) as (_ & _ & _ & H).
  apply (H "1000000001" "Hello" [] eq_refl). discriminate.
Defined.

(** In that payload the entry before the text event threw, and left a
    rejection. *)
Example rejection_of_the_entry_before :
  rejections
    (snd (Part000.forEach tickingEnv
            ([textEvent None (Some "Hi, I need help")]
             ++ textEntry "1000000001" "Hello" [] :: [])
            (freshWorld exampleConfig)))
  = [TypeError].
Proof. vm_compute. reflexivity. Qed.

(* ------------------------------------------------------------------ *)
(** *** Signature enforcement, where there is any *)



(** What the amended claim leaves out.  The handler signs what its
    parser gives back, not what was sent: a payload that does not
    serialise back to itself, here ["{ }"], is refused although its
    header is the signature of the bytes sent.  And a header of another
    byte length, or none, is refused with 500, not 403. *)
Example signature_of_sent_bytes_is_refused :
  let raw := "{ }" in
  let req :=
    {| x_hub_signature_256 :=
         Some ("sha256=" ++ hmacSha256Hex digestEnv (webhookSecret digestEnv)
                              raw);
       body := instagramBody [textEntry "1000000001" "Hi, I need help" []] |} in
  JSON_stringify digestEnv (body req) <> raw /\
  Part000.post_webhook digestEnv req (freshWorld exampleConfig)
  = (Normal {| code := 403; sent := Some "Invalid signature" |},
     freshWorld exampleConfig) /\
  Part000.post_webhook digestEnv
    {| x_hub_signature_256 := None; body := body req |}
    (freshWorld exampleConfig)
  = (Normal {| code := 500; sent := Some "Internal server error" |},
     freshWorld exampleConfig).
Proof. vm_compute. repeat split. intros H. discriminate H. Qed.

(** X13: the store is append-only.  Whatever the server goes through, a
    conversation that is in the store stays in it, with the same id,
    user id, username and creation time, and with the messages it had
    still at the front of its message list, unchanged and in the same
    order. *)
Theorem server_history_append_only (E : Env) (evs : list ServerEvent)
    (w : World) (c0 : Conversation) :
  In c0 (conversations w) ->
  exists c, In c (conversations (runEvents E evs w)) /\ extends c0 c.
Proof.
  intros Hc0.
  apply (runEvents_keeps E (fun w' => grows (conversations w)
                                            (conversations w')) );
    [| | | apply grows_refl | exact Hc0].
  - intros uid txt s w' H. eapply grows_trans; [exact H | apply grows_append].
  - intros w' H. eapply grows_trans; [exact H | apply grows_listing].
  - intros w1 w2 H Hc _. now rewrite Hc.
Qed.

Lemma server_history_append_only_witness :
  let A := {| conv_id := "a"; userId := Some "1000000001";
              username := "user_000001";
              messages := [ {| msg_id := "m"; text := "Hi, I need help";
                               sender := user; timestamp := 1000 |} ];
              status := active; createdAt := 1000; lastActivity := 1000 |} in
  exists c,
    In c (conversations
            (runEvents tickingEnv
               [EvTimer (Some "1000000001") "Book here: https://cal.example/me";
                EvList]
               (storeStep [A] 0 0 (freshWorld exampleConfig)))) /\
    extends A c.
Proof.
  intros A. apply server_history_append_only. now left.
Defined.

(* ------------------------------------------------------------------ *)
(** *** Chronological order *)

Lemma sorted_snoc (l : list Z) (y : Z) :
  StronglySorted Z.le l -> Forall (fun x => (x <= y)%Z) l ->
  StronglySorted Z.le (l ++ [y]).
Proof.
  induction 1 as [|x l Hs IH Hall]; intros Hy; cbn [app].
  - repeat constructor.
  - inversion Hy as [|? ? Hxy Hy']; subst.
    constructor; [now apply IH|].
    apply Forall_app. split; [exact Hall | now constructor].
Qed.

Lemma chronological_push (m : Message) (t : Z) (c : Conversation) :
  chronological c ->
  (lastActivity c <= timestamp m)%Z -> (timestamp m <= t)%Z ->
  chronological (pushMessage m t c).
Proof.
  intros (Hs & Hall & Hcl) Hm Ht. unfold chronological. cbn.
  split; [|split].
  - rewrite map_app. cbn [map]. apply sorted_snoc; [exact Hs|].
    rewrite Forall_map. eapply Forall_impl; [|exact Hall].
    cbn. intros x Hx. lia.
  - apply Forall_app. split.
    + eapply Forall_impl; [|exact Hall]. cbn. intros x Hx. lia.
    + constructor; [lia | constructor].
  - lia.
Qed.

Lemma timed_append (E : Env) (uid : option string) (txt : string)
    (s : Sender) :
  monotoneClock E ->
  keeps (timed E) (addMessageToConversation E uid None txt s).
Proof.
  intros Hmono w Hw. unfold timed in *.
  assert (Hlater : forall n,
             Forall (fun c => chronological c /\
                              forall k, n + clockReads w <= k ->
                                        (lastActivity c <= now E k)%Z)
                    (conversations w)).
  { intros n. eapply Forall_impl; [|exact Hw].
    cbn. intros c [Hc Hb]. split; [exact Hc|].
    intros k Hk. apply Hb. lia. }
  destruct (findWithIndex (hasUserId uid) (conversations w))
    as [[i c0]|] eqn:F.
  - rewrite (addMessage_existing E w uid None txt s i c0 F).
    destruct (findWithIndex_Some _ _ _ _ F) as (l1 & l2 & Hl & Hi & _ & _).
    cbn [snd conversations storeStep clockReads].
    specialize (Hlater 2). rewrite Hl in *. rewrite <- Hi, setAt_middle.
    apply Forall_app in Hlater. destruct Hlater as [H1 H2].
    inversion H2 as [|? ? _ H2']; subst.
    apply Forall_app in Hw. destruct Hw as [_ Hw].
    inversion Hw as [|? ? [Hc0 Hb0] _]; subst.
    apply Forall_app. split; [exact H1|]. constructor; [|exact H2'].
    split.
    + apply chronological_push; [exact Hc0 | | ]; cbn.
      * apply Hb0. lia.
      * apply Hmono. lia.
    + cbn. intros k Hk. apply Hmono. lia.
  - destruct uid as [u|].
    + rewrite (addMessage_created E w u None txt s F).
      cbn [snd conversations storeStep clockReads].
      apply Forall_app. split; [apply (Hlater 4)|].
      constructor; [|constructor]. unfold created, chronological.
      cbn [messages map timestamp createdAt lastActivity].
      assert (A1 : (now E (clockReads w) <= now E (2 + clockReads w))%Z)
        by (apply Hmono; lia).
      assert (A2 : (now E (2 + clockReads w) <= now E (3 + clockReads w))%Z)
        by (apply Hmono; lia).
      split; [split; [|split]|].
      * repeat constructor.
      * constructor; [cbn [timestamp]; lia | constructor].
      * lia.
      * intros k Hk. apply Hmono. lia.
    + rewrite (addMessage_undefined E w None txt s F eq_refl).
      apply (Hlater 0).
Qed.

Lemma timed_listing (E : Env) : keeps (timed E) get_api_conversations.
Proof.
  intros w Hw. rewrite get_api_conversations_eq. unfold timed in *.
  cbn [snd conversations storeStep clockReads]. now rewrite sortBy_perm.
Qed.

(** X14: with a clock that never goes back, whatever the server goes
    through, starting with an empty store, every conversation is in
    chronological order: its messages are stored by increasing
    timestamp, none is older than the conversation's creation, and
    [lastActivity] is not earlier than any of them. *)
Theorem server_chronological (E : Env) (evs : list ServerEvent) (w0 : World)
    (c : Conversation) :
  monotoneClock E ->
  conversations w0 = [] ->
  In c (conversations (runEvents E evs w0)) ->
  chronological c.
Proof.
  intros Hmono H0 Hc.
  assert (H : timed E (runEvents E evs w0)).
  { apply runEvents_keeps.
    - intros uid txt s. now apply timed_append.
    - apply timed_listing.
    - intros w w' Hw Hcs Hr. unfold timed in *. now rewrite Hcs, Hr.
    - unfold timed. rewrite H0. constructor. }
  unfold timed in H. rewrite Forall_forall in H. now apply H.
Qed.

Lemma tickingEnv_monotone : monotoneClock tickingEnv.
Proof. intros n m H. unfold tickingEnv. cbn [now]. lia. Qed.

Lemma server_chronological_witness :
  let post u t :=
    EvIndexPost {| x_hub_signature_256 := None;
                   body := instagramBody
                             [textEvent (Some {| id := Some u |}) (Some t)] |} in
  Forall chronological
    (conversations
       (runEvents tickingEnv
          [post "1000000001" "Hi, I need help";
           EvTimer (Some "1000000001") "Book here: https://cal.example/me";
           post "1000000001" "Thanks"]
          (freshWorld exampleConfig))).
Proof.
  intros post. apply Forall_forall. intros c Hc.
  exact (server_chronological tickingEnv _ (freshWorld exampleConfig) c
           tickingEnv_monotone eq_refl Hc).
Defined.

(* ================================================================== *)
(** ** More on the signature verifier and on substitution *)
(* ================================================================== *)

(** X15: the verifier answers [true] for one header only, the expected
    signature of the payload; it never accepts another one.  When
    WEBHOOK_SECRET is not set, or is empty, the key of that signature is
    the fixed string ["default_secret"]. *)
Theorem verifier_accepts_exactly_expected (E : Env) (payload : string)
    (signature : option string) :
  (verifyWebhookSignature E payload signature = Normal true <->
   signature
   = Some ("sha256=" ++ hmacSha256Hex E (webhookSecret E) payload)) /\
  (WEBHOOK_SECRET E = None \/ WEBHOOK_SECRET E = Some "" ->
   verifyWebhookSignature E payload
     (Some ("sha256=" ++ hmacSha256Hex E "default_secret" payload))
   = Normal true).
Proof.
  split.
  - rewrite verifyWebhookSignature_cases. cbv zeta.
    destruct signature as [given|]; [|split; discriminate].
    destruct (Nat.eqb_spec
                (List.length (utf8 given))
                (List.length
                   (utf8 ("sha256="
                          ++ hmacSha256Hex E (webhookSecret E) payload))))
      as [Hlen|Hlen].
    + split.
      * intros [= H]. apply String.eqb_eq in H. now subst.
      * intros [= ->]. now rewrite String.eqb_refl.
    + split; [discriminate|]. intros [= ->]. now contradiction Hlen.
  - intros H.
    assert (Hs : webhookSecret E = "default_secret")
      by (unfold webhookSecret; destruct H as [-> | ->]; reflexivity).
    rewrite <- Hs at 1. apply verifyWebhookSignature_correct.
Qed.

Lemma verifier_accepts_exactly_expected_witness :
  verifyWebhookSignature tickingEnv "{}"
    (Some ("sha256=" ++ hmacSha256Hex tickingEnv "default_secret" "{}"))
  = Normal true.
Proof.
  destruct (verifier_accepts_exactly_expected tickingEnv "{}" None)
    as (_ & H).
  apply H. now left.
Defined.

(** X16: whatever the booking link is, the text before the first
    placeholder and the text after it come out of the substitution as
    they went in; only what stands between them depends on the link, and
    it is the link itself when the link has no dollar sign. *)
Theorem substitution_keeps_surrounding_text (link pre post reply : string) :
  firstOccurrence BOOKING_URL pre post reply ->
  exists middle,
    replace BOOKING_URL link reply = pre ++ middle ++ post /\
    (indexOf "$" link = None -> middle = link).
Proof.
  intros Hocc. exists (GetSubstitution BOOKING_URL pre post link).
  split; [now apply replace_first | apply GetSubstitution_plain].
Qed.

Lemma substitution_keeps_surrounding_text_witness :
  exists middle,
    replace BOOKING_URL "https://cal.example/me"
      "Book: {BOOKING_URL} (again: {BOOKING_URL})"
    = "Book: " ++ middle ++ " (again: {BOOKING_URL})".
Proof.
  destruct (substitution_keeps_surrounding_text "https://cal.example/me"
              "Book: " " (again: {BOOKING_URL})"
              "Book: {BOOKING_URL} (again: {BOOKING_URL})") as (mid & H & _).
  - split; [reflexivity|]. intros k Hk. simpl in Hk.
    do 6 (destruct k as [|k]; [reflexivity|]). lia.
  - now exists mid.
Defined.

(* ================================================================== *)
(** ** Configuration, status and connectivity tests *)
(* ================================================================== *)

Lemma truthy_orElse (v : option string) (d : string) :
  truthy (Some (orElse v d)) = truthy v || truthy (Some d).
Proof.
  destruct v as [s|]; cbn; [|reflexivity].
  destruct (String.eqb_spec s "") as [->|Hs]; cbn; [reflexivity|].
  now destruct (String.eqb_spec s "").
Qed.

Lemma connectedIf_connected (v : option string) :
  Admin.connectedIf v = "connected" <-> truthy v = true.
Proof.
  unfold Admin.connectedIf. destruct (truthy v); split;
    try reflexivity; discriminate.
Qed.

(** X17: the status report of a server of [src/index.js] that has just
    started.  Instagram is reported connected exactly when
    INSTAGRAM_ACCESS_TOKEN is set and not empty, the LLM exactly when
    OPENAI_API_KEY or GEMINI_API_KEY is, the booking link exactly when
    CALENDLY_URL is; the webhook is always reported connected.  The
    verify token of that server is never empty. *)
Theorem status_at_startup (env : Admin.ProcessEnv) :
  let report := Admin.get_api_status (Admin.initialConfiguration env) in
  Admin.st_webhook report = "connected" /\
  (Admin.st_instagram report = "connected" <->
   truthy (env "INSTAGRAM_ACCESS_TOKEN") = true) /\
  (Admin.st_gpt report = "connected" <->
   truthy (env "OPENAI_API_KEY") = true \/
   truthy (env "GEMINI_API_KEY") = true) /\
  (Admin.st_booking report = "connected" <->
   truthy (env "CALENDLY_URL") = true) /\
  truthy (Admin.verifyToken
            (Admin.instagram (Admin.initialConfiguration env))) = true.
Proof.
  cbv zeta. unfold Admin.get_api_status, Admin.initialConfiguration,
    Admin.initialConfigurationWith.
  cbn [Admin.st_webhook Admin.st_instagram Admin.st_gpt Admin.st_booking
       Admin.instagram Admin.gpt Admin.booking Admin.accessToken
       Admin.apiKey Admin.calendlyUrl Admin.verifyToken].
  rewrite !connectedIf_connected, !truthy_orElse.
  cbn [truthy String.eqb negb]. rewrite !orb_false_r.
  repeat split; try tauto.
  - apply orb_true_iff.
  - apply orb_true_iff.
  - apply orb_true_r.
Qed.

Lemma status_at_startup_witness :
  let env := fun name => if name =? "GEMINI_API_KEY" then Some "key"
                         else None in
  Admin.st_gpt (Admin.get_api_status (Admin.initialConfiguration env))
  = "connected".
Proof.
  intros env. destruct (status_at_startup env) as (_ & _ & H & _).
  apply H. right. reflexivity.
Defined.

(** X18: [src/unnamed/part_000] does not start without a page id and an
    access token in the environment; when it starts, its configuration
    has both, not empty, and its status report has Instagram
    connected. *)
Theorem part000_starts_with_credentials (env : Admin.ProcessEnv) :
  (Admin.part000_startup env = None <->
   truthy (env "INSTAGRAM_PAGE_ID") = false \/
   truthy (env "INSTAGRAM_ACCESS_TOKEN") = false) /\
  (forall cfg,
     Admin.part000_startup env = Some cfg ->
     Admin.pageId (Admin.instagram cfg) = env "INSTAGRAM_PAGE_ID" /\
     Admin.accessToken (Admin.instagram cfg) = env "INSTAGRAM_ACCESS_TOKEN" /\
     truthy (Admin.pageId (Admin.instagram cfg)) = true /\
     Admin.st_instagram (Admin.get_api_status cfg) = "connected").
Proof.
  unfold Admin.part000_startup.
  destruct (truthy (env "INSTAGRAM_PAGE_ID")) eqn:Hp;
    destruct (truthy (env "INSTAGRAM_ACCESS_TOKEN")) eqn:Ht; cbn [negb orb].
  - split; [split; [discriminate | intros [H|H]; discriminate]|].
    intros cfg [= <-].
    apply truthy_Some in Hp, Ht.
    destruct Hp as (p & Hp & Hpne), Ht as (t & Ht & Htne).
    cbn [Admin.initialConfigurationWith Admin.instagram Admin.pageId
         Admin.accessToken Admin.get_api_status Admin.st_instagram].
    rewrite Hp, Ht. cbn [orElse].
    destruct (String.eqb_spec p "") as [->|_]; [contradiction|].
    destruct (String.eqb_spec t "") as [->|_]; [contradiction|].
    repeat split.
    + cbn. now destruct (String.eqb_spec p "").
    + unfold Admin.connectedIf. cbn. now destruct (String.eqb_spec t "").
  - split; [split; [auto | reflexivity] | discriminate].
  - split; [split; [auto | reflexivity] | discriminate].
  - split; [split; [auto | reflexivity] | discriminate].
Qed.

Lemma part000_starts_with_credentials_witness :
  let env := fun name => if name =? "INSTAGRAM_PAGE_ID" then Some "178414"
                         else if name =? "INSTAGRAM_ACCESS_TOKEN"
                              then Some "EAAB" else None in
  exists cfg,
    Admin.part000_startup env = Some cfg /\
    Admin.st_instagram (Admin.get_api_status cfg) = "connected".
Proof.
  intros env. eexists. split; [reflexivity|].
  destruct (part000_starts_with_credentials env) as (_ & H).
  now apply H.
Defined.

Lemma get_api_status_stored_whole (cfg : Admin.LiveConfiguration) :
  Admin.get_api_status_stored (Admin.stored cfg)
  = Normal (Admin.get_api_status cfg).
Proof. reflexivity. Qed.

Lemma get_webhook_stored_whole (cfg : Admin.LiveConfiguration)
    (mode token challenge : option string) :
  Admin.get_webhook_stored (Admin.stored cfg) mode token challenge
  = Normal (Admin.get_webhook cfg mode token challenge).
Proof.
  unfold Admin.get_webhook_stored, Admin.get_webhook.
  cbn [Admin.stored Admin.s_instagram].
  destruct (truthy mode && truthy token); [|reflexivity].
  destruct (strictEq mode (Some "subscribe")); [|reflexivity].
  cbn [andb].
  now destruct (strictEq token (Admin.verifyToken (Admin.instagram cfg))).
Qed.

(** X19: a configuration update is shallow, and it always reports
    success.  Each of the four sections is, after the update, what the
    body has under its key: the old section when the body has nothing
    there, [null] when the body has [null], and otherwise the section of
    the body as a whole, so that a field left out of it is lost.  After
    an update with an [instagram] section that has no access token,
    whatever the token was, Instagram is reported disconnected (as soon
    as the [gpt] and [booking] sections are objects, so that there is a
    report); after an update with [null] for a section that the status
    route reads, that route throws.  Posting the same body a second time
    changes nothing more. *)
Theorem config_update_is_shallow (cfg : Admin.StoredConfiguration)
    (b : Admin.ConfigUpdate) :
  let cfg' := snd (Admin.post_api_config b cfg) in
  Admin.saved (fst (Admin.post_api_config b cfg)) = true /\
  snd (Admin.post_api_config b cfg') = cfg' /\
  Admin.s_instagram cfg'
  = match Admin.u_instagram b with
    | Admin.Absent => Admin.s_instagram cfg
    | Admin.Null => None
    | Admin.Given s => Some s
    end /\
  Admin.s_gpt cfg'
  = match Admin.u_gpt b with
    | Admin.Absent => Admin.s_gpt cfg
    | Admin.Null => None
    | Admin.Given s => Some s
    end /\
  Admin.s_booking cfg'
  = match Admin.u_booking b with
    | Admin.Absent => Admin.s_booking cfg
    | Admin.Null => None
    | Admin.Given s => Some s
    end /\
  Admin.s_responses cfg'
  = match Admin.u_responses b with
    | Admin.Absent => Admin.s_responses cfg
    | Admin.Null => None
    | Admin.Given s => Some s
    end /\
  (forall s g k,
     Admin.u_instagram b = Admin.Given s -> Admin.accessToken s = None ->
     Admin.s_gpt cfg' = Some g -> Admin.s_booking cfg' = Some k ->
     exists report,
       Admin.get_api_status_stored cfg' = Normal report /\
       Admin.st_instagram report = "disconnected") /\
  (Admin.u_instagram b = Admin.Null \/ Admin.u_gpt b = Admin.Null \/
   Admin.u_booking b = Admin.Null ->
   Admin.get_api_status_stored cfg' = Throw TypeError).
Proof.
  cbv zeta. unfold Admin.post_api_config, Admin.spread.
  cbn [fst snd Admin.saved Admin.s_instagram Admin.s_gpt Admin.s_booking
       Admin.s_responses].
  split; [reflexivity|]. split.
  { destruct (Admin.u_instagram b), (Admin.u_gpt b), (Admin.u_booking b),
      (Admin.u_responses b); reflexivity. }
  do 4 (split; [reflexivity|]). split.
  - intros s g k Hb Hs Hg Hk. unfold Admin.get_api_status_stored.
    cbn [Admin.s_instagram Admin.s_gpt Admin.s_booking].
    rewrite Hg, Hk, Hb. cbn [Admin.spreadKey].
    eexists. split; [reflexivity|].
    cbn [Admin.st_instagram]. now rewrite Hs.
  - unfold Admin.get_api_status_stored.
    cbn [Admin.s_instagram Admin.s_gpt Admin.s_booking].
    intros [H | [H | H]]; rewrite H; cbn [Admin.spreadKey].
    + reflexivity.
    + now destruct (Admin.spreadKey (Admin.s_instagram cfg)
                      (Admin.u_instagram b)).
    + now destruct (Admin.spreadKey (Admin.s_instagram cfg)
                      (Admin.u_instagram b)),
        (Admin.spreadKey (Admin.s_gpt cfg) (Admin.u_gpt b)).
Qed.

Lemma config_update_is_shallow_witness :
  let env := fun name => if name =? "INSTAGRAM_ACCESS_TOKEN" then Some "EAAB"
                         else None in
  let cfg := Admin.stored (Admin.initialConfiguration env) in
  let b := {| Admin.u_instagram :=
                Admin.Given {| Admin.pageId := Some "178414";
                               Admin.accessToken := None;
                               Admin.verifyToken := None |};
              Admin.u_gpt := Admin.Absent; Admin.u_booking := Admin.Absent;
              Admin.u_responses := Admin.Absent |} in
  let gone := {| Admin.u_instagram := Admin.Absent; Admin.u_gpt := Admin.Null;
                 Admin.u_booking := Admin.Absent;
                 Admin.u_responses := Admin.Absent |} in
  (exists report,
     Admin.get_api_status_stored cfg = Normal report /\
     Admin.st_instagram report = "connected") /\
  (exists report,
     Admin.get_api_status_stored (snd (Admin.post_api_config b cfg))
     = Normal report /\
     Admin.st_instagram report = "disconnected") /\
  Admin.get_api_status_stored (snd (Admin.post_api_config gone cfg))
  = Throw TypeError.
Proof.
  intros env cfg b gone. split; [|split].
  - eexists. split; reflexivity.
  - destruct (config_update_is_shallow cfg b)
      as (_ & _ & _ & _ & _ & _ & H & _).
    apply (H _ _ _ eq_refl eq_refl eq_refl eq_refl).
  - destruct (config_update_is_shallow cfg gone)
      as (_ & _ & _ & _ & _ & _ & _ & H).
    apply H. right. left. reflexivity.
Defined.

(** X20: GET /webhook read on the whole configuration object does what
    the route does on the three values the pipeline reads, as long as
    they are all there; and once an update has replaced the [instagram]
    section by one without a verify token, no verification request is
    answered 200 any more, whatever token it brings.  (The route of the
    first part is the one on a configuration all of whose sections are
    objects; the route of the second reads the object as the update has
    left it, and the two agree where both apply.) *)
Theorem verification_after_update (cfg : Admin.LiveConfiguration)
    (old : Admin.StoredConfiguration) (b : Admin.ConfigUpdate)
    (mode token challenge : option string) :
  (forall view, Admin.pipelineView cfg = Some view ->
     Admin.get_webhook cfg mode token challenge
     = get_webhook view mode token challenge) /\
  Admin.get_webhook_stored (Admin.stored cfg) mode token challenge
  = Normal (Admin.get_webhook cfg mode token challenge) /\
  (forall s, Admin.u_instagram b = Admin.Given s ->
     Admin.verifyToken s = None ->
     exists r,
       Admin.get_webhook_stored (snd (Admin.post_api_config b old))
         mode token challenge = Normal r /\
       code r <> 200).
Proof.
  split; [|split; [apply get_webhook_stored_whole|]].
  - intros view Hv. unfold Admin.pipelineView in Hv.
    unfold Admin.get_webhook, get_webhook.
    destruct (Admin.verifyToken (Admin.instagram cfg)) as [v|];
      [|discriminate].
    destruct (Admin.prompt (Admin.gpt cfg)); [|discriminate].
    destruct (Admin.calendlyUrl (Admin.booking cfg)); [|discriminate].
    injection Hv as <-. reflexivity.
  - intros s Hb Hs. unfold Admin.get_webhook_stored, Admin.post_api_config,
      Admin.spread. cbn [snd Admin.s_instagram]. rewrite Hb.
    cbn [Admin.spreadKey]. rewrite Hs.
    destruct (truthy mode) eqn:Hm;
      [|eexists; split; [reflexivity | cbn; discriminate]].
    destruct (truthy token) eqn:Ht;
      [|eexists; split; [reflexivity | cbn; discriminate]].
    apply truthy_Some in Ht. destruct Ht as (t & -> & _).
    cbn [andb strictEq].
    destruct (strictEq mode (Some "subscribe"));
      eexists; (split; [reflexivity | cbn; discriminate]).
Qed.

Lemma verification_after_update_witness :
  let b := {| Admin.u_instagram :=
                Admin.Given {| Admin.pageId := Some "178414";
                               Admin.accessToken := Some "EAAB";
                               Admin.verifyToken := None |};
              Admin.u_gpt := Admin.Absent; Admin.u_booking := Admin.Absent;
              Admin.u_responses := Admin.Absent |} in
  exists r,
    Admin.get_webhook_stored
      (snd (Admin.post_api_config b
              (Admin.stored (Admin.initialConfiguration (fun _ => None)))))
      (Some "subscribe") (Some "myverifytoken") (Some "1158201444")
    = Normal r /\
    code r <> 200.
Proof.
  intros b.
  destruct (verification_after_update
              (Admin.initialConfiguration (fun _ => None))
              (Admin.stored (Admin.initialConfiguration (fun _ => None))) b
              (Some "subscribe") (Some "myverifytoken") (Some "1158201444"))
    as (_ & _ & H).
  now apply (H _ eq_refl).
Defined.

(* ------------------------------------------------------------------ *)
(** *** POST /api/test/:service *)

(** X21: a connectivity test checks the candidate configuration before
    it sends anything.  Without a page id or an access token (for
    [instagram]), without an API key (for [gpt]), without a booking URL
    (for [booking]), missing or empty, no request is sent and the answer
    is a failure that names what is missing; for any other service name
    the answer is 400 and no request is sent. *)
Theorem api_test_validates_first (http : Admin.Probe -> Admin.HttpOutcome)
    (service : string) (testConfig : Admin.ConfigBody) :
  let r := fst (Admin.post_api_test http service testConfig) in
  let probes := snd (Admin.post_api_test http service testConfig) in
  (service = "instagram" ->
   truthy (Admin.field (Admin.b_instagram testConfig) Admin.pageId) = false \/
   truthy (Admin.field (Admin.b_instagram testConfig) Admin.accessToken)
   = false ->
   probes = [] /\
   r = Admin.failure "Missing Instagram Page ID or Access Token. Please check your configuration.") /\
  (service = "gpt" ->
   truthy (Admin.field (Admin.b_gpt testConfig) Admin.apiKey) = false ->
   probes = [] /\
   r = Admin.failure "Missing API Key. Please check your configuration.") /\
  (service = "booking" ->
   truthy (Admin.field (Admin.b_booking testConfig) Admin.calendlyUrl)
   = false ->
   probes = [] /\
   r = Admin.failure "Missing booking URL. Please check your configuration.") /\
  (service <> "instagram" -> service <> "gpt" -> service <> "booking" ->
   probes = [] /\ Admin.httpStatus r = 400 /\ Admin.success r = false /\
   Admin.message r = Some "Unknown service").
Proof.
  cbv zeta. unfold Admin.post_api_test. split; [|split; [|split]].
  - intros -> Hmiss. cbn [String.eqb Ascii.eqb Bool.eqb andb].
    assert (Hb : negb (truthy (Admin.field (Admin.b_instagram testConfig)
                                 Admin.pageId))
                 || negb (truthy (Admin.field (Admin.b_instagram testConfig)
                                    Admin.accessToken)) = true).
    { destruct Hmiss as [-> | ->]; [reflexivity | apply orb_true_r]. }
    rewrite Hb. now split.
  - intros -> Hmiss. cbn [String.eqb Ascii.eqb Bool.eqb andb].
    rewrite Hmiss. now split.
  - intros -> Hmiss. cbn [String.eqb Ascii.eqb Bool.eqb andb].
    rewrite Hmiss. now split.
  - intros H1 H2 H3. apply String.eqb_neq in H1, H2, H3.
    rewrite H1, H2, H3. repeat split.
Qed.

Lemma api_test_validates_first_witness :
  let candidate :=
    {| Admin.b_instagram :=
         Some {| Admin.pageId := Some "178414"; Admin.accessToken := Some "";
                 Admin.verifyToken := None |};
       Admin.b_gpt := None; Admin.b_booking := None;
       Admin.b_responses := None |} in
  let http := fun _ => Admin.Resolved 200 "{}" in
  snd (Admin.post_api_test http "instagram" candidate) = [] /\
  snd (Admin.post_api_test http "gpt" candidate) = [] /\
  Admin.httpStatus (fst (Admin.post_api_test http "calendar" candidate)) = 400.
Proof.
  intros candidate http. split; [|split].
  - destruct (api_test_validates_first http "instagram" candidate)
      as (H & _).
    apply (H eq_refl). right. reflexivity.
  - destruct (api_test_validates_first http "gpt" candidate)
      as (_ & H & _).
    now apply (H eq_refl).
  - destruct (api_test_validates_first http "calendar" candidate)
      as (_ & _ & _ & H).
    apply H; discriminate.
Defined.

(** X22: a connectivity test sends at most one request, and it reports
    success only when it sent one and got an answer: any answer for
    [instagram] and [gpt], an answer with status 200 for [booking].  A
    [booking] answer with another status is the one case of a failure
    that comes without an error text. *)
Theorem api_test_success_needs_answer (http : Admin.Probe -> Admin.HttpOutcome)
    (service : string) (testConfig : Admin.ConfigBody) :
  let r := fst (Admin.post_api_test http service testConfig) in
  let probes := snd (Admin.post_api_test http service testConfig) in
  List.length probes <= 1 /\
  (Admin.success r = true ->
   exists p status d,
     probes = [p] /\ http p = Admin.Resolved status d /\
     (service = "booking" -> status = 200)) /\
  (Admin.success r = false -> Admin.httpStatus r = 200 ->
   Admin.error r = None ->
   service = "booking" /\
   exists p status d,
     probes = [p] /\ http p = Admin.Resolved status d /\ status <> 200).
Proof.
  cbv zeta. unfold Admin.post_api_test.
  destruct (String.eqb_spec service "instagram") as [->|Hi];
    [|destruct (String.eqb_spec service "gpt") as [->|Hg];
      [|destruct (String.eqb_spec service "booking") as [->|Hb]]].
  - destruct (negb _ || negb _).
    + cbn. split; [lia|]. split; [discriminate|]. intros _ _ H. discriminate H.
    + match goal with |- context [http ?q] => destruct (http q) eqn:Hq end.
      * cbn. split; [lia|]. split; [|discriminate].
        intros _. eexists _, _, _.
        split; [reflexivity|]. split; [exact Hq | discriminate].
      * cbn. split; [lia|]. split; [discriminate|].
        intros _ _ H. discriminate H.
  - destruct (negb _).
    + cbn. split; [lia|]. split; [discriminate|]. intros _ _ H. discriminate H.
    + match goal with |- context [http ?q] => destruct (http q) eqn:Hq end.
      * cbn. split; [lia|]. split; [|discriminate].
        intros _. eexists _, _, _.
        split; [reflexivity|]. split; [exact Hq | discriminate].
      * cbn. split; [lia|]. split; [discriminate|].
        intros _ _ H. discriminate H.
  - destruct (negb _).
    + cbn. split; [lia|]. split; [discriminate|]. intros _ _ H. discriminate H.
    + match goal with |- context [http ?q] => destruct (http q) eqn:Hq end.
      * cbn [fst snd Admin.success Admin.httpStatus Admin.error List.length].
        split; [lia|]. split.
        -- intros Hs. apply Nat.eqb_eq in Hs. eexists _, _, _.
           split; [reflexivity|]. split; [exact Hq | intros _; exact Hs].
        -- intros Hs _ _. apply Nat.eqb_neq in Hs. split; [reflexivity|].
           eexists _, _, _.
           split; [reflexivity|]. split; [exact Hq | exact Hs].
      * cbn. split; [lia|]. split; [discriminate|].
        intros _ _ H. discriminate H.
  - cbn. split; [lia|]. split; [discriminate|]. intros _ H. discriminate H.
Qed.

Lemma api_test_success_needs_answer_witness :
  let candidate :=
    {| Admin.b_instagram := None; Admin.b_gpt := None;
       Admin.b_booking :=
         Some {| Admin.calendlyUrl := Some "https://cal.example/me";
                 Admin.bookingProvider := None |};
       Admin.b_responses := None |} in
  let http := fun _ => Admin.Resolved 204 "" in
  exists p,
    snd (Admin.post_api_test http "booking" candidate) = [p] /\
    fst (Admin.post_api_test http "booking" candidate)
    = {| Admin.httpStatus := 200; Admin.success := false;
         Admin.data := None; Admin.error := None; Admin.message := None |}.
Proof.
  intros candidate http.
  destruct (api_test_success_needs_answer http "booking" candidate)
    as (_ & _ & H).
  destruct (H eq_refl eq_refl eq_refl) as (_ & p & status & d & Hp & _).
  exists p. split; [exact Hp | reflexivity].
Defined.
